(** * The keychain customizer page, [src/app/customizer/page.tsx]

    A shallow embedding of the page component [CustomizerPage]: its state
    hooks, its event handlers, the image loader with its cache, and the
    canvas render pass, followed by the properties proved about them.

    Conventions of the embedding.
    - A JavaScript [number] holding an index is a [Z]; one holding a
      coordinate, a scale or a zoom factor is an exact rational [Q], compared
      with [==].  What is stated over [Q] is which items, layers and context
      calls there are, and the bounds of the zoom.  The arithmetic of the
      rectangle of a charm is given on binary64 numbers as well, in
      [Binary64], and its numerical values are stated there.
    - [crypto.randomUUID()] is the environment's: its k-th call returns
      [uuid E k], and the page counts the calls made so far.
    - [ASSETS] is imported from [../lib/constants]; its two catalogs are
      fields of the environment.
    - Every handler that reads [canvasRef.current] takes the bounding
      rectangle of the canvas as an [option], so that its
      [if (!canvas) return;] is part of the model.  The page never attaches
      the ref to its [<canvas>]: [canvasRef_current] is the value read
      there, and [onPage], [runPage] and [session] are the page with it.
    - [previewUrl], [updatePreview] and the timers only feed the preview
      thumbnail and are left out. *)

From Stdlib Require Import QArith Qminmax Lqa ZArith List String Ascii Bool Lia.
From Stdlib Require Import DecimalNat DecimalString Floats.
From stdpp Require Import gmap strings list.
Import ListNotations.

Local Open Scope string_scope.
Local Open Scope list_scope.

(** ** Numbers *)

(** [a < b] on JavaScript numbers, as a boolean. *)
Definition Qltb (a b : Q) : bool := negb (Qle_bool b a).

(** [v !== null] *)
Definition isSome {T : Type} (v : option T) : bool :=
  match v with Some _ => true | None => false end.

(** [arr[i]] on a JavaScript array: [undefined] out of range. *)
Definition index {T : Type} (arr : list T) (i : Z) : option T :=
  if (i <? 0)%Z then None else nth_error arr (Z.to_nat i).

(** ** Types *)

Inductive Mode : Set := fixed | manual.

Definition Mode_eqb (m1 m2 : Mode) : bool :=
  match m1, m2 with
  | fixed, fixed | manual, manual => true
  | _, _ => false
  end.

Module CharmItem.
Record t : Type := mk {
  id : string;
  charmIndex : Z;
  x : Q;
  y : Q;
  z : Q  (* Scale *)
}.
End CharmItem.

Module Slots.
Record t : Type := mk {
  A : option Z;  (* Bottom *)
  B : option Z;  (* Middle *)
  C : option Z   (* Top *)
}.
End Slots.

Module State.
Record t : Type := mk {
  mode : Mode;
  baseIndex : Z;
  slots : Slots.t;
  manualItems : list CharmItem.t;
  zoom : Q
}.

Definition set_mode (m : Mode) (s : t) : t :=
  mk m (baseIndex s) (slots s) (manualItems s) (zoom s).
Definition set_baseIndex (i : Z) (s : t) : t :=
  mk (mode s) i (slots s) (manualItems s) (zoom s).
Definition set_slots (sl : Slots.t) (s : t) : t :=
  mk (mode s) (baseIndex s) sl (manualItems s) (zoom s).
Definition set_manualItems (l : list CharmItem.t) (s : t) : t :=
  mk (mode s) (baseIndex s) (slots s) l (zoom s).
Definition set_zoom (q : Q) (s : t) : t :=
  mk (mode s) (baseIndex s) (slots s) (manualItems s) q.
End State.

Module Point.
Record t : Type := mk { x : Q; y : Q }.
End Point.

(** The confirm modal keeps the closure to run on "Ya, Lanjutkan".  The
    closures built by the page only call [setState] and [setIsEditing], so a
    closure is a function on that pair of hooks. *)
Module ConfirmModal.
Record t : Type := mk {
  isOpen : bool;
  title : string;
  message : string;
  onConfirm : State.t * bool -> State.t * bool
}.
End ConfirmModal.

(** The hooks of the component, and the number of [crypto.randomUUID()]
    calls made so far. *)
Record Page : Type := mkPage {
  state : State.t;
  isEditing : bool;
  draggedItem : option string;
  dragOffset : Point.t;
  confirmModal : ConfirmModal.t;
  uuidCalls : nat
}.

Definition setState (f : State.t -> State.t) (p : Page) : Page :=
  mkPage (f (state p)) (isEditing p) (draggedItem p) (dragOffset p)
         (confirmModal p) (uuidCalls p).
Definition setIsEditing (b : bool) (p : Page) : Page :=
  mkPage (state p) b (draggedItem p) (dragOffset p) (confirmModal p) (uuidCalls p).
Definition setDraggedItem (d : option string) (p : Page) : Page :=
  mkPage (state p) (isEditing p) d (dragOffset p) (confirmModal p) (uuidCalls p).
Definition setDragOffset (o : Point.t) (p : Page) : Page :=
  mkPage (state p) (isEditing p) (draggedItem p) o (confirmModal p) (uuidCalls p).
Definition setConfirmModal (f : ConfirmModal.t -> ConfirmModal.t) (p : Page) : Page :=
  mkPage (state p) (isEditing p) (draggedItem p) (dragOffset p)
         (f (confirmModal p)) (uuidCalls p).
Definition setUuidCalls (n : nat) (p : Page) : Page :=
  mkPage (state p) (isEditing p) (draggedItem p) (dragOffset p) (confirmModal p) n.

(** ** Environment *)

(** What the browser decides about one [new window.Image()]: whether
    [decode()] fulfils, and, when it rejects, which of the handlers installed
    afterwards fires, if any. *)
Inductive Fallback : Set :=
| onload (width height : Z)
| onerror
| silent.

Inductive Decode : Set :=
| decoded (width height : Z)
| rejected (fb : Fallback).

Record Env : Type := mkEnv {
  uuid : nat -> string;          (* k-th result of crypto.randomUUID() *)
  keychains : list string;       (* ASSETS.keychains *)
  animals : list string;         (* ASSETS.animals *)
  network : nat -> option string -> Decode
                                 (* fate of the k-th Image created, by its src *)
}.

(** ** Initial state *)

Definition defaultState : State.t :=
  State.mk fixed 0 (Slots.mk None None None) [] 0.65%Q.

Definition initial : Page :=
  mkPage defaultState true None (Point.mk 0 0)
         (ConfirmModal.mk false "" "" (fun c => c)) 0.

Definition showConfirm (title message : string)
    (onConfirm : State.t * bool -> State.t * bool) (p : Page) : Page :=
  setConfirmModal (fun _ => ConfirmModal.mk true title message onConfirm) p.

Definition closeConfirm (p : Page) : Page :=
  setConfirmModal
    (fun prev => ConfirmModal.mk false (ConfirmModal.title prev)
                   (ConfirmModal.message prev) (ConfirmModal.onConfirm prev)) p.

(** The "Ya, Lanjutkan" button: [confirmModal.onConfirm(); closeConfirm();] *)
Definition confirmYes (p : Page) : Page :=
  let c := ConfirmModal.onConfirm (confirmModal p) (state p, isEditing p) in
  closeConfirm (setIsEditing (snd c) (setState (fun _ => fst c) p)).

(** ** Constants *)

Definition CANVAS_SIZE : Q := 800.

Module Position.
Record t : Type := mk { x : Q; y : Q; scale : Q }.
End Position.

Module CHARM_POSITIONS.
Definition C : Position.t := Position.mk 0.5 0.31 0.28.
Definition B : Position.t := Position.mk 0.5 0.58 0.28.
Definition A : Position.t := Position.mk 0.5 0.85 0.28.
End CHARM_POSITIONS.

(** ** Screen to canvas coordinates *)

Module DOMRect.
Record t : Type := mk { left : Q; top : Q; width : Q; height : Q }.
End DOMRect.

Module Touch.
Record t : Type := mk { clientX : Q; clientY : Q }.
End Touch.

(** A mouse event, or a touch event (the one with a [touches] property). *)
Inductive PointerEvent : Type :=
| MouseEvent (clientX clientY : Q)
| TouchEvent (touches changedTouches : list Touch.t).

(** [None] is the [TypeError] of reading [clientX] of [undefined], when a
    touch event has neither [touches] nor [changedTouches]. *)
Definition getCanvasCoords (zoom : Q) (e : PointerEvent) (rect : DOMRect.t)
  : option Point.t :=
  let client :=
    match e with
    | TouchEvent touches changedTouches =>
        match head touches with
        | Some touch => Some (Touch.clientX touch, Touch.clientY touch)
        | None =>
            match head changedTouches with
            | Some touch => Some (Touch.clientX touch, Touch.clientY touch)
            | None => None
            end
        end
    | MouseEvent clientX clientY => Some (clientX, clientY)
    end in
  match client with
  | None => None
  | Some (clientX, clientY) =>
      let cx := (DOMRect.width rect / 2)%Q in
      let cy := (DOMRect.height rect / 2)%Q in
      let relX := ((clientX - DOMRect.left rect - cx) / zoom + CANVAS_SIZE / 2)%Q in
      let relY := ((clientY - DOMRect.top rect - cy) / zoom + CANVAS_SIZE / 2)%Q in
      Some (Point.mk (relX / CANVAS_SIZE) (relY / CANVAS_SIZE))
  end.

(** ** Mode switching *)

(** One [if (state.slots.S !== null) newItems.push({...})] of [switchMode];
    the accumulator carries the list and the count of [randomUUID] calls. *)
Definition pushSlot (E : Env) (slot : option Z) (pos : Position.t)
    (acc : list CharmItem.t * nat) : list CharmItem.t * nat :=
  match slot with
  | Some charm =>
      ((fst acc ++ [CharmItem.mk (uuid E (snd acc)) charm (Position.x pos)
                      (Position.y pos) (Position.scale pos)])%list,
       S (snd acc))
  | None => acc
  end.

Definition slotsToItems (E : Env) (sl : Slots.t) (calls : nat)
  : list CharmItem.t * nat :=
  pushSlot E (Slots.C sl) CHARM_POSITIONS.C
    (pushSlot E (Slots.B sl) CHARM_POSITIONS.B
       (pushSlot E (Slots.A sl) CHARM_POSITIONS.A ([], calls))).

Definition switchMode (E : Env) (newMode : Mode) (p : Page) : Page :=
  if Mode_eqb newMode (State.mode (state p)) then p
  else
    match newMode, State.mode (state p) with
    | manual, fixed =>
        (* Convert slots to manual items *)
        let '(newItems, calls) := slotsToItems E (State.slots (state p)) (uuidCalls p) in
        setIsEditing true
          (setState (fun s => State.set_manualItems newItems (State.set_mode manual s))
             (setUuidCalls calls p))
    | fixed, _ =>
        showConfirm "Kembali ke Template Mode?"
          "Posisi manual Anda akan hilang jika kembali ke mode ini. Lanjutkan?"
          (fun c => (State.set_mode fixed (fst c), snd c)) p
    | _, _ => p
    end.

(** ** Canvas interaction (manual mode) *)

(** JavaScript truthiness of [draggedItem : string | null]. *)
Definition truthy (d : option string) : bool :=
  match d with
  | Some s => negb (String.eqb s "")
  | None => false
  end.

(** The predicate given to [find] in [handleCanvasMouseDown]. *)
Definition hit (coords : Point.t) (item : CharmItem.t) : bool :=
  let dx := (Point.x coords - CharmItem.x item)%Q in
  let dy := (Point.y coords - CharmItem.y item)%Q in
  (* Hit radius increased to matches charm scale (~0.28/2 = 0.14) *)
  Qltb (dx * dx + dy * dy) (0.14 * 0.14).

Definition handleCanvasMouseDown (e : PointerEvent) (canvas : option DOMRect.t)
    (p : Page) : Page :=
  if negb (Mode_eqb (State.mode (state p)) manual) || negb (isEditing p) then p
  else
    match canvas with
    | None => p
    | Some rect =>
        match getCanvasCoords (State.zoom (state p)) e rect with
        | None => p
        | Some coords =>
            let clickedItem :=
              find (hit coords) (rev (State.manualItems (state p))) in
            match clickedItem with
            | Some item =>
                setDragOffset
                  (Point.mk (Point.x coords - CharmItem.x item)
                            (Point.y coords - CharmItem.y item))
                  (setDraggedItem (Some (CharmItem.id item)) p)
            | None => p
            end
        end
    end.

(** The function mapped over [manualItems] by [handleCanvasMouseMove]. *)
Definition moveItem (dragged : string) (coords offset : Point.t)
    (item : CharmItem.t) : CharmItem.t :=
  if String.eqb (CharmItem.id item) dragged
  then CharmItem.mk (CharmItem.id item) (CharmItem.charmIndex item)
         (Point.x coords - Point.x offset) (Point.y coords - Point.y offset)
         (CharmItem.z item)
  else item.

Definition handleCanvasMouseMove (e : PointerEvent) (canvas : option DOMRect.t)
    (p : Page) : Page :=
  if negb (truthy (draggedItem p))
     || negb (Mode_eqb (State.mode (state p)) manual)
     || negb (isEditing p)
  then p
  else
    match canvas, draggedItem p with
    | Some rect, Some dragged =>
        match getCanvasCoords (State.zoom (state p)) e rect with
        | None => p
        | Some coords =>
            setState
              (fun s =>
                 State.set_manualItems
                   (map (moveItem dragged coords (dragOffset p))
                        (State.manualItems s)) s) p
        end
    | _, _ => p
    end.

Definition handleCanvasMouseUp (p : Page) : Page :=
  if truthy (draggedItem p) then setDraggedItem None p else p.

(** ** Drag from the sidebar *)

(** [Number.prototype.toString] on a catalog index. *)
Definition toString (n : nat) : string :=
  NilEmpty.string_of_uint (Nat.to_uint n).

(** [handleDragStart]: the payload stored under ["charmIndex"]. *)
Definition handleDragStart (charmIndex : nat) : string := toString charmIndex.

Definition isWhiteSpace (c : ascii) : bool :=
  let n := nat_of_ascii c in
  (n =? 9)%nat || (n =? 10)%nat || (n =? 11)%nat || (n =? 12)%nat
  || (n =? 13)%nat || (n =? 32)%nat.

Fixpoint trimStart (s : string) : string :=
  match s with
  | String c r => if isWhiteSpace c then trimStart r else s
  | EmptyString => s
  end.

Definition digitValue (c : ascii) : option Z :=
  let n := Z.of_nat (nat_of_ascii c) in
  if ((48 <=? n) && (n <=? 57))%Z then Some (n - 48)%Z
  else if ((97 <=? n) && (n <=? 122))%Z then Some (n - 87)%Z
  else if ((65 <=? n) && (n <=? 90))%Z then Some (n - 55)%Z
  else None.

Fixpoint parseDigits (radix : Z) (s : string) (acc : option Z) : option Z :=
  match s with
  | String c r =>
      match digitValue c with
      | Some d =>
          if (d <? radix)%Z
          then parseDigits radix r (Some (radix * default 0%Z acc + d)%Z)
          else acc
      | None => acc
      end
  | EmptyString => acc
  end.

(** [parseInt] with no radix, on ASCII input; [None] is [NaN]. *)
Definition parseInt (s : string) : option Z :=
  let s := trimStart s in
  let '(sign, s) :=
    match s with
    | String "-" r => ((-1)%Z, r)
    | String "+" r => (1%Z, r)
    | _ => (1%Z, s)
    end in
  let '(radix, s) :=
    match s with
    | String "0" (String "x" r) | String "0" (String "X" r) => (16%Z, r)
    | _ => (10%Z, s)
    end in
  option_map (Z.mul sign) (parseDigits radix s None).

(** [crypto.randomUUID()]. *)
Definition randomUUID (E : Env) (p : Page) : string * Page :=
  (uuid E (uuidCalls p), setUuidCalls (S (uuidCalls p)) p).

Definition handleDrop (E : Env) (data : string) (e : PointerEvent)
    (canvas : option DOMRect.t) (p : Page) : Page :=
  if negb (Mode_eqb (State.mode (state p)) manual) || negb (isEditing p) then p
  else
    match parseInt data with
    | None => p
    | Some charmIndex =>
        match canvas with
        | None => p
        | Some rect =>
            match getCanvasCoords (State.zoom (state p)) e rect with
            | None => p
            | Some coords =>
                let '(id, p) := randomUUID E p in
                let newItem :=
                  CharmItem.mk id charmIndex (Point.x coords) (Point.y coords) 0.28 in
                setState
                  (fun s => State.set_manualItems
                              (State.manualItems s ++ [newItem])%list s) p
            end
        end
    end.

(** ** Buttons *)

Definition handleReset (p : Page) : Page :=
  showConfirm "Reset Desain?"
    "Semua perubahan akan dihapus dan kembali ke awal."
    (fun _ => (State.mk fixed 0 (Slots.mk None None None) [] 0.65%Q, true)) p.

Definition zoomIn (p : Page) : Page :=
  setState (fun s => State.set_zoom (Qmin (State.zoom s + 0.1) 2) s) p.

Definition zoomOut (p : Page) : Page :=
  setState (fun s => State.set_zoom (Qmax (State.zoom s - 0.1) 0.4) s) p.

Definition selectBase (idx : nat) (p : Page) : Page :=
  setState (State.set_baseIndex (Z.of_nat idx)) p.

Inductive CharmSlot : Set := slotA | slotB | slotC.

Definition setSlot (slot : CharmSlot) (v : option Z) (sl : Slots.t) : Slots.t :=
  match slot with
  | slotA => Slots.mk v (Slots.B sl) (Slots.C sl)
  | slotB => Slots.mk (Slots.A sl) v (Slots.C sl)
  | slotC => Slots.mk (Slots.A sl) (Slots.B sl) v
  end.

Definition getSlot (slot : CharmSlot) (sl : Slots.t) : option Z :=
  match slot with
  | slotA => Slots.A sl
  | slotB => Slots.B sl
  | slotC => Slots.C sl
  end.

(** [onSelect] and [onClear] of a [SlotControl]. *)
Definition onSelect (slot : CharmSlot) (idx : nat) (p : Page) : Page :=
  setState (fun s => State.set_slots
                       (setSlot slot (Some (Z.of_nat idx)) (State.slots s)) s) p.

Definition onClear (slot : CharmSlot) (p : Page) : Page :=
  setState (fun s => State.set_slots (setSlot slot None (State.slots s)) s) p.

(** [onClick] of a charm of the palette. *)
Definition onClickCharm (E : Env) (idx : nat) (p : Page) : Page :=
  if isEditing p then
    let '(id, p) := randomUUID E p in
    let newItem := CharmItem.mk id (Z.of_nat idx) 0.5 0.5 0.28 in
    setState
      (fun s => State.set_manualItems (State.manualItems s ++ [newItem])%list s) p
  else p.

(** "Hapus Semua Charm". *)
Definition removeAll (p : Page) : Page :=
  setState (State.set_manualItems []) p.

(** ** The page as a transition system *)

Inductive Event : Type :=
| ClickBase (idx : nat)
| ClickTemplate
| ClickFreeDrag
| ClickEditor
| ClickPreview
| CanvasDown (e : PointerEvent) (canvas : option DOMRect.t)
| CanvasMove (e : PointerEvent) (canvas : option DOMRect.t)
| CanvasUp
| Drop (data : string) (e : PointerEvent) (canvas : option DOMRect.t)
| ClickZoomIn
| ClickZoomOut
| SlotSelect (slot : CharmSlot) (idx : nat)
| SlotClear (slot : CharmSlot)
| ClickCharm (idx : nat)
| ClickRemoveAll
| ClickReset
| ClickBatal
| ClickLanjutkan.

(** An event reaches its handler only when the element that carries the
    handler is rendered; otherwise nothing happens. *)
Definition dispatch (E : Env) (ev : Event) (p : Page) : Page :=
  let inManual := Mode_eqb (State.mode (state p)) manual in
  match ev with
  | ClickBase idx =>
      if (idx <? length (keychains E))%nat then selectBase idx p else p
  | ClickTemplate => switchMode E fixed p
  | ClickFreeDrag => switchMode E manual p
  | ClickEditor => if inManual then setIsEditing true p else p
  | ClickPreview => if inManual then setIsEditing false p else p
  | CanvasDown e canvas => handleCanvasMouseDown e canvas p
  | CanvasMove e canvas => handleCanvasMouseMove e canvas p
  | CanvasUp => handleCanvasMouseUp p
  | Drop data e canvas => handleDrop E data e canvas p
  | ClickZoomIn => zoomIn p
  | ClickZoomOut => zoomOut p
  | SlotSelect slot idx =>
      if negb inManual && (idx <? length (animals E))%nat
      then onSelect slot idx p else p
  | SlotClear slot =>
      if negb inManual && isSome (getSlot slot (State.slots (state p)))
      then onClear slot p else p
  | ClickCharm idx =>
      if inManual && (idx <? length (animals E))%nat
      then onClickCharm E idx p else p
  | ClickRemoveAll =>
      if inManual && (0 <? length (State.manualItems (state p)))%nat
      then removeAll p else p
  | ClickReset => handleReset p
  | ClickBatal =>
      if ConfirmModal.isOpen (confirmModal p) then closeConfirm p else p
  | ClickLanjutkan =>
      if ConfirmModal.isOpen (confirmModal p) then confirmYes p else p
  end.

Definition run (E : Env) (evs : list Event) (p : Page) : Page :=
  fold_left (fun q ev => dispatch E ev q) evs p.

(** ** Image loading with cache *)

Module HTMLImageElement.
(** [serial] is the identity of the object: the k-th [new window.Image()]. *)
Record t : Type := mk {
  serial : nat;
  src : option string;
  width : Z;
  height : Z
}.
End HTMLImageElement.

(** [imageCache.current], and the [src] of every image created so far, on
    each of which [decode()] was called once (oldest first). *)
Record Loader : Type := mkLoader {
  imageCache : gmap (option string) HTMLImageElement.t;
  decodes : list (option string)
}.

Definition emptyLoader : Loader := mkLoader ∅ [].

Definition cacheSet (src : option string) (img : HTMLImageElement.t)
    (L : Loader) : Loader :=
  mkLoader (<[src := img]> (imageCache L)) (decodes L).

(** A call of [loadImage] that has run up to its first [await]. *)
Inductive Request : Type :=
| cached (img : HTMLImageElement.t)
| decoding (serial : nat) (src : option string).

Inductive Promise (T : Type) : Type :=
| fulfilled (v : T)
| rejects
| pending.
Arguments fulfilled {T} v.
Arguments rejects {T}.
Arguments pending {T}.

(** The synchronous part of [loadImage]: the cache test, and on a miss the
    new image with its [decode()] started. *)
Definition loadImage_call (src : option string) (L : Loader) : Request * Loader :=
  match imageCache L !! src with
  | Some img => (cached img, L)
  | None =>
      (decoding (length (decodes L)) src,
       mkLoader (imageCache L) (decodes L ++ [src])%list)
  end.

(** The rest of [loadImage], run when the browser has settled the image:
    the [try] continues after a fulfilled [decode()], the [catch] takes a
    rejected one and waits for [onload] or [onerror]. *)
Definition loadImage_resume (E : Env) (r : Request) (L : Loader)
  : Promise (option HTMLImageElement.t) * Loader :=
  match r with
  | cached img => (fulfilled (Some img), L)
  | decoding k src =>
      match network E k src with
      | decoded w h =>
          let img := HTMLImageElement.mk k src w h in
          (fulfilled (Some img), cacheSet src img L)
      | rejected fb =>
          (* Fallback to standard load *)
          match fb with
          | onload w h =>
              let img := HTMLImageElement.mk k src w h in
              (fulfilled (Some img), cacheSet src img L)
          | onerror => (fulfilled None, L)
          | silent => (pending, L)
          end
      end
  end.

(** [await loadImage(src)] on its own. *)
Definition loadImage (E : Env) (src : option string) (L : Loader)
  : Promise (option HTMLImageElement.t) * Loader :=
  let '(r, L) := loadImage_call src L in loadImage_resume E r L.

(** [paths.map(p => loadImage(p))]: every call runs to its first [await]
    before any of them resumes. *)
Fixpoint callAll (paths : list (option string)) (L : Loader)
  : list Request * Loader :=
  match paths with
  | [] => ([], L)
  | src :: rest =>
      let '(r, L) := loadImage_call src L in
      let '(rs, L) := callAll rest L in
      (r :: rs, L)
  end.

(** The calls resume as their images settle; the order taken here is the
    order of the requests. *)
Fixpoint resumeAll (E : Env) (rs : list Request) (L : Loader)
  : list (Promise (option HTMLImageElement.t)) * Loader :=
  match rs with
  | [] => ([], L)
  | r :: rest =>
      let '(v, L) := loadImage_resume E r L in
      let '(vs, L) := resumeAll E rest L in
      (v :: vs, L)
  end.

(** [Promise.all]. *)
Fixpoint all {T : Type} (ps : list (Promise T)) : Promise (list T) :=
  match ps with
  | [] => fulfilled []
  | p :: rest =>
      match p, all rest with
      | rejects, _ | _, rejects => rejects
      | pending, _ | _, pending => pending
      | fulfilled v, fulfilled vs => fulfilled (v :: vs)
      end
  end.

(** ** Render logic *)

Module CharmRequest.
Record t : Type := mk {
  path : option string;
  x : Q;
  y : Q;
  scale : Q;
  isSelected : bool;
  id : option string
}.
End CharmRequest.

Definition fixedRequest (E : Env) (slot : option Z) (pos : Position.t)
  : list CharmRequest.t :=
  match slot with
  | Some charm =>
      [CharmRequest.mk (index (animals E) charm) (Position.x pos)
         (Position.y pos) (Position.scale pos) false None]
  | None => []
  end.

Definition sameId (id : string) (dragged : option string) : bool :=
  match dragged with
  | Some d => String.eqb id d
  | None => false
  end.

Definition charmRequests (E : Env) (s : State.t) (dragged : option string)
  : list CharmRequest.t :=
  match State.mode s with
  | fixed =>
      (fixedRequest E (Slots.A (State.slots s)) CHARM_POSITIONS.A
       ++ fixedRequest E (Slots.B (State.slots s)) CHARM_POSITIONS.B
       ++ fixedRequest E (Slots.C (State.slots s)) CHARM_POSITIONS.C)%list
  | manual =>
      map (fun item =>
             CharmRequest.mk (index (animals E) (CharmItem.charmIndex item))
               (CharmItem.x item) (CharmItem.y item) (CharmItem.z item)
               (sameId (CharmItem.id item) dragged)
               (Some (CharmItem.id item)))
          (State.manualItems s)
  end.

(** The calls made on the 2d context, in order.  [Arc x y r] is the full
    circle [arc(x, y, r, 0, Math.PI * 2)]. *)
Inductive Cmd : Type :=
| ClearRect (x y w h : Q)
| Save
| Restore
| Translate (x y : Q)
| Scale (x y : Q)
| ShadowColor (c : string)
| ShadowBlur (b : Q)
| ShadowOffsetY (o : Q)
| DrawImage (img : HTMLImageElement.t) (x y w h : Q)
| FillStyle (c : string)
| Font (f : string)
| TextAlign (a : string)
| FillText (text : string) (x y : Q)
| StrokeStyle (c : string)
| LineWidth (w : Q)
| SetLineDash (segments : list Q)
| StrokeRect (x y w h : Q)
| BeginPath
| Arc (x y r : Q)
| Fill.

(** The rectangle a charm image is drawn in: [(cx, cy, cw, ch)], over
    exact rationals; [Binary64.charmRect] below is the same computation on
    binary64 numbers. *)
Definition charmRect (req : CharmRequest.t) (img : HTMLImageElement.t)
  : Q * Q * Q * Q :=
  let cw := (CANVAS_SIZE * CharmRequest.scale req)%Q in
  let ch := ((cw / inject_Z (HTMLImageElement.width img))
             * inject_Z (HTMLImageElement.height img))%Q in
  let cx := ((CANVAS_SIZE * CharmRequest.x req) - (cw / 2))%Q in
  let cy := ((CANVAS_SIZE * CharmRequest.y req) - (ch / 2))%Q in
  (cx, cy, cw, ch).

Definition drawBase (basePath : option string)
    (baseImg : option HTMLImageElement.t) : list Cmd :=
  match baseImg with
  | Some baseImg =>
      let baseScale := 0.8%Q in
      let bw := (CANVAS_SIZE * baseScale)%Q in
      let bh := ((bw / inject_Z (HTMLImageElement.width baseImg))
                 * inject_Z (HTMLImageElement.height baseImg))%Q in
      let bx := ((CANVAS_SIZE - bw) / 2)%Q in
      let byy := ((CANVAS_SIZE - bh) / 2)%Q in
      [ShadowColor "rgba(0,0,0,0.2)"; ShadowBlur 20; ShadowOffsetY 10;
       DrawImage baseImg bx byy bw bh]
  | None =>
      (* DEBUG: Visual error on canvas *)
      [FillStyle "#EF4444"; Font "bold 24px sans-serif"; TextAlign "center";
       FillText "Error: Gagal memuat gambar base."
                (CANVAS_SIZE / 2) (CANVAS_SIZE / 2);
       Font "16px sans-serif";
       FillText (match basePath with
                 | Some path => if String.eqb path "" then "Unknown path" else path
                 | None => "Unknown path"
                 end)
                (CANVAS_SIZE / 2) (CANVAS_SIZE / 2 + 30)]
  end.

(** The body of [charmRequests.forEach((req, idx) => ...)]. *)
Definition drawCharm (s : State.t) (isEditing : bool)
    (charmImages : list (option HTMLImageElement.t))
    (idx : nat) (req : CharmRequest.t) : list Cmd :=
  match charmImages !! idx with
  | Some (Some img) =>
      let '(cx, cy, cw, ch) := charmRect req img in
      ([ShadowColor "rgba(0,0,0,0.1)"; ShadowBlur 5;
        DrawImage img cx cy cw ch; ShadowColor "transparent"]
       ++ (if Mode_eqb (State.mode s) manual && isEditing
              && CharmRequest.isSelected req
           then [StrokeStyle "#10B981"; LineWidth (2 / State.zoom s);
                 SetLineDash [5%Q; 5%Q];
                 StrokeRect (cx - 2) (cy - 2) (cw + 4) (ch + 4);
                 SetLineDash [];
                 (* Center Dot Handle *)
                 FillStyle "#10B981"; BeginPath;
                 Arc (cx + cw / 2) (cy + ch / 2) (6 / State.zoom s); Fill]
           else []))%list
  | _ => []
  end.

(** The synchronous drawing, once every image has settled. *)
Definition draw (E : Env) (s : State.t) (isEditing : bool)
    (requests : list CharmRequest.t)
    (baseImg : option HTMLImageElement.t)
    (charmImages : list (option HTMLImageElement.t)) : list Cmd :=
  ([ClearRect 0 0 CANVAS_SIZE CANVAS_SIZE; Save;
    Translate (CANVAS_SIZE / 2) (CANVAS_SIZE / 2);
    Scale (State.zoom s) (State.zoom s);
    Translate ((- CANVAS_SIZE) / 2) ((- CANVAS_SIZE) / 2)]
   ++ drawBase (index (keychains E) (State.baseIndex s)) baseImg
   ++ [ShadowColor "transparent"]
   ++ concat (imap (drawCharm s isEditing charmImages) requests))%list.

(** The paths a render pass resolves: the base, then the charms. *)
Definition renderPaths (E : Env) (s : State.t) (dragged : option string)
  : list (option string) :=
  index (keychains E) (State.baseIndex s)
  :: map CharmRequest.path (charmRequests E s dragged).

(** A render pass up to its [await]: every [loadImage] call it makes has
    run its synchronous part. *)
Definition render_call (E : Env) (s : State.t) (dragged : option string)
    (L : Loader) : list Request * Loader :=
  callAll (renderPaths E s dragged) L.

(** The pass from its [await] on.  The result is [None] when the pass stays
    suspended for ever; otherwise it is the list of context calls made,
    [ctx.restore()] of the [finally] included. *)
Definition render_resume (E : Env) (s : State.t) (isEditing : bool)
    (dragged : option string) (isMounted : bool) (rs : list Request)
    (L : Loader) : option (list Cmd) * Loader :=
  let requests := charmRequests E s dragged in
  let '(ps, L) := resumeAll E rs L in
  match all ps with
  | fulfilled images =>
      (* const [baseImg, ...charmImages] = await Promise.all([...]) *)
      let baseImg := mjoin (head images) in
      let charmImages := tail images in
      if isMounted
      then (Some (draw E s isEditing requests baseImg charmImages ++ [Restore]), L)
      else (Some [Restore], L)
  | rejects => (Some [Restore], L)
  | pending => (None, L)
  end.

(** One render pass on a mounted canvas, with no other pass in between. *)
Definition render (E : Env) (s : State.t) (isEditing : bool)
    (dragged : option string) (isMounted : bool) (L : Loader)
  : option (list Cmd) * Loader :=
  let '(rs, L) := render_call E s dragged L in
  render_resume E s isEditing dragged isMounted rs L.

(** ** Definitions used by the statements *)

(** The populated slots, in the order [switchMode] visits them, each with
    its entry of [CHARM_POSITIONS]. *)
Definition populatedSlots (sl : Slots.t) : list (Z * Position.t) :=
  (match Slots.A sl with Some c => [(c, CHARM_POSITIONS.A)] | None => [] end
   ++ match Slots.B sl with Some c => [(c, CHARM_POSITIONS.B)] | None => [] end
   ++ match Slots.C sl with Some c => [(c, CHARM_POSITIONS.C)] | None => [] end)%list.

Definition inRange (lo hi q : Q) : Prop := (lo <= q /\ q <= hi)%Q.

(** The zoom bound. *)
Definition zoomOK (s : State.t) : Prop := inRange 0.4 2 (State.zoom s).

(** Every id of the items is the result of one of the first [n] calls of
    [randomUUID], and no call serves two items. *)
Definition idsOK (E : Env) (n : nat) (items : list CharmItem.t) : Prop :=
  exists ks : list nat,
    map CharmItem.id items = map (uuid E) ks
    /\ NoDup ks /\ Forall (fun k => (k < n)%nat) ks.

(** What the closure kept by the confirm modal must respect. *)
Definition closureOK (E : Env) (f : State.t * bool -> State.t * bool) : Prop :=
  forall c,
    (zoomOK (fst c) -> zoomOK (fst (f c)))
    /\ (forall n, idsOK E n (State.manualItems (fst c)) ->
                  idsOK E n (State.manualItems (fst (f c)))).

(** The invariant of the reachable pages. *)
Definition Inv (E : Env) (p : Page) : Prop :=
  zoomOK (state p)
  /\ idsOK E (uuidCalls p) (State.manualItems (state p))
  /\ closureOK E (ConfirmModal.onConfirm (confirmModal p)).

Definition inUnit (q : Q) : Prop := inRange 0 1 q.



(** A concrete environment to evaluate the page in. *)
Definition demoUuid (k : nat) : string := ("uuid-" ++ toString k)%string.

Definition demoEnv : Env :=
  mkEnv demoUuid ["/keychains/0.png"] ["/animals/0.png"; "/animals/1.png"]
        (fun _ _ => decoded 100 100).

(** The same, with every image failing to load. *)
Definition brokenEnv : Env :=
  mkEnv demoUuid ["/keychains/0.png"] ["/animals/0.png"; "/animals/1.png"]
        (fun _ _ => rejected onerror).

Definition demoRect : DOMRect.t := DOMRect.mk 0 0 800 800.

(** ** The render effect *)

(** The cleanup the effect hands to React, run before the effect runs again
    or when the page unmounts: while nothing is dragged it cancels the
    preview timer, otherwise it clears [isMounted]. *)
Inductive Cleanup : Set := clearPreviewTimer | clearIsMounted.

Definition effectCleanup (dragged : option string) : Cleanup :=
  if negb (truthy dragged) then clearPreviewTimer else clearIsMounted.

(** [isMounted] as a pass reads it after its [await]; [cleanedUp] tells
    whether the cleanup of its effect has run by then. *)
Definition isMountedAt (dragged : option string) (cleanedUp : bool) : bool :=
  match effectCleanup dragged with
  | clearPreviewTimer => true
  | clearIsMounted => negb cleanedUp
  end.

(** ** Further definitions used by the statements *)

(** The images passed to [drawImage], in the order of the calls. *)
Definition drawnImages (cmds : list Cmd) : list HTMLImageElement.t :=
  omap (fun c => match c with DrawImage img _ _ _ _ => Some img | _ => None end)
       cmds.

(** The calls that draw the selection outline and its handle. *)
Definition isOverlay (c : Cmd) : bool :=
  match c with
  | StrokeStyle _ | LineWidth _ | SetLineDash _ | StrokeRect _ _ _ _
  | BeginPath | Arc _ _ _ | Fill => true
  | _ => false
  end.

(** What of a request decides the picture. *)
Definition geometry (r : CharmRequest.t) : option string * Q * Q * Q :=
  (CharmRequest.path r, CharmRequest.x r, CharmRequest.y r, CharmRequest.scale r).

(** The events of a manual editing session: everything but the mode
    toggles, the slot controls, "Reset" and the buttons of the modal. *)
Definition isEdit (ev : Event) : bool :=
  match ev with
  | ClickBase _ | ClickEditor | ClickPreview | CanvasDown _ _ | CanvasMove _ _
  | CanvasUp | Drop _ _ _ | ClickZoomIn | ClickZoomOut | ClickCharm _
  | ClickRemoveAll => true
  | _ => false
  end.

(** Every cached image sits under its own [src], and is the image of a
    decode of that [src] recorded in the log. *)
Definition LoaderOK (L : Loader) : Prop :=
  forall src img,
    imageCache L !! src = Some img ->
    HTMLImageElement.src img = src
    /\ decodes L !! HTMLImageElement.serial img = Some src.

(** ** The canvas of the page *)

(** [canvasRef.current] as the effect and the handlers read it.  The ref is
    created by [useRef<HTMLCanvasElement>(null)]; the [<canvas>] element of
    the page carries the pointer handlers but no [ref] attribute, and
    nothing assigns [canvasRef.current], so the value read is [null]
    throughout. *)
Definition canvasRef_current : option DOMRect.t := None.

(** An event as the page handles it: whatever canvas the event is stated
    with, the handler reads [canvasRef.current]. *)
Definition onPage (ev : Event) : Event :=
  match ev with
  | CanvasDown e _ => CanvasDown e canvasRef_current
  | CanvasMove e _ => CanvasMove e canvasRef_current
  | Drop data e _ => Drop data e canvasRef_current
  | _ => ev
  end.

Definition runPage (E : Env) (evs : list Event) (p : Page) : Page :=
  run E (map onPage evs) p.




(** An item whose center lies in the unit square. *)
Definition unitItem (item : CharmItem.t) : Prop :=
  inUnit (CharmItem.x item) /\ inUnit (CharmItem.y item).

(** What holds of the page along every run in which the canvas is
    [canvasRef.current]. *)
Definition PageInv (p : Page) : Prop :=
  draggedItem p = None
  /\ Forall unitItem (State.manualItems (state p))
  /\ forall c, Forall unitItem (State.manualItems (fst c)) ->
               Forall unitItem
                 (State.manualItems
                    (fst (ConfirmModal.onConfirm (confirmModal p) c))).

(** ** Resolutions of a render pass *)

(** The browser settles every image: no [decode()] is rejected without
    [onload] or [onerror] firing afterwards. *)
Definition settles (E : Env) : Prop :=
  forall k src, network E k src <> rejected silent.


(** The image at [src] cannot be loaded, whenever it is asked for. *)
Definition failsToLoad (E : Env) (src : option string) : Prop :=
  forall k, network E k src = rejected onerror.

(** What [await loadImage(src)] yields for the call suspended as [r] once
    the browser has settled its image; [None] is [null]. *)
Definition imageOf (E : Env) (r : Request) : option HTMLImageElement.t :=
  match r with
  | cached img => Some img
  | decoding k src =>
      match network E k src with
      | decoded w h | rejected (onload w h) =>
          Some (HTMLImageElement.mk k src w h)
      | rejected _ => None
      end
  end.

(** [img] is what a resolution of [src] started on the loader [L] yields:
    the cached image on a hit, and on a miss what the browser makes of the
    new image. *)
Definition resolvesTo (E : Env) (L : Loader) (src : option string)
    (img : option HTMLImageElement.t) : Prop :=
  match imageCache L !! src with
  | Some c => img = Some c
  | None => exists k, img = imageOf E (decoding k src)
  end.


(** ** Overlapping resolutions *)

(** The loader together with the [loadImage] calls suspended at their
    [await], oldest first. *)
Record InFlight : Type := mkInFlight {
  loader : Loader;
  suspended : list Request
}.

(** One step of the loader: a new call runs up to its [await], or the
    [i]-th suspended call resumes. *)
Inductive LoadStep : Type :=
| callStep (src : option string)
| resumeStep (i : nat).

Definition loadStep (E : Env) (st : LoadStep) (S : InFlight) : InFlight :=
  match st with
  | callStep src =>
      let '(r, L) := loadImage_call src (loader S) in
      mkInFlight L (suspended S ++ [r])
  | resumeStep i =>
      match suspended S !! i with
      | Some r =>
          mkInFlight (snd (loadImage_resume E r (loader S)))
                     (delete i (suspended S))
      | None => S
      end
  end.

Definition loadSteps (E : Env) (sts : list LoadStep) (S : InFlight) : InFlight :=
  fold_left (fun S st => loadStep E st S) sts S.

(** Every cached image is consistent, and every suspended call has its
    decode in the log. *)
Definition InFlightOK (S : InFlight) : Prop :=
  LoaderOK (loader S)
  /\ Forall (fun r => match r with
                      | cached _ => True
                      | decoding k src => decodes (loader S) !! k = Some src
                      end)
            (suspended S).

(** ** The rectangle of a charm in binary64 *)

(** A decimal literal stands for the nearest binary64 number, as it does in
    JavaScript. *)
Set Warnings "-inexact-float".

(** The arithmetic of [render] on the rectangle of a charm as JavaScript
    carries it out, every operation rounded to binary64. *)
Module Binary64.
Definition CANVAS_SIZE : float := 800%float.

(** [img.width] and [img.height] are integers, held exactly. *)
Definition ofZ (z : Z) : float := PrimFloat.of_uint63 (Uint63.of_Z z).

Definition charmRect (x y scale : float) (img : HTMLImageElement.t)
  : float * float * float * float :=
  let cw := (CANVAS_SIZE * scale)%float in
  let ch := ((cw / ofZ (HTMLImageElement.width img))
             * ofZ (HTMLImageElement.height img))%float in
  let cx := ((CANVAS_SIZE * x) - (cw / 2))%float in
  let cy := ((CANVAS_SIZE * y) - (ch / 2))%float in
  (cx, cy, cw, ch).





End Binary64.

(** ** Properties *)

Lemma Mode_eqb_refl (m : Mode) : Mode_eqb m m = true.
Proof. by destruct m. Qed.

Lemma toString_inj (i j : nat) : toString i = toString j -> i = j.
Proof.
  unfold toString. intros H.
  apply (f_equal NilEmpty.uint_of_string) in H.
  rewrite !NilEmpty.usu in H. injection H as H.
  apply (f_equal Nat.of_uint) in H.
  by rewrite !DecimalNat.Unsigned.of_to in H.
Qed.

Lemma demoUuid_inj (i j : nat) : demoUuid i = demoUuid j -> i = j.
Proof. unfold demoUuid. simpl. intros H. injection H as H. by apply toString_inj. Qed.

(** *** The model on concrete inputs *)

Example parseInt_of_payload :
  parseInt (handleDragStart 3) = Some 3%Z /\ parseInt (handleDragStart 12) = Some 12%Z.
Proof. split; reflexivity. Qed.

Example parseInt_samples :
  parseInt "" = None /\ parseInt "charm" = None
  /\ parseInt "  -7px" = Some (-7)%Z /\ parseInt "0x1f" = Some 31%Z
  /\ parseInt "08" = Some 8%Z.
Proof. repeat split; reflexivity. Qed.

(** At zoom 1 on an 800 px canvas the center of the rectangle is the center
    of the canvas, and its corners are the corners. *)
Example getCanvasCoords_samples :
  (exists c, getCanvasCoords 1 (MouseEvent 400 400) demoRect = Some c
             /\ (Point.x c == 0.5 /\ Point.y c == 0.5)%Q)
  /\ (exists c, getCanvasCoords 1 (MouseEvent 0 800) demoRect = Some c
                /\ (Point.x c == 0 /\ Point.y c == 1)%Q)
  /\ (exists c, getCanvasCoords 1 (TouchEvent [] [Touch.mk 800 0]) demoRect = Some c
                /\ (Point.x c == 1 /\ Point.y c == 0)%Q)
  /\ getCanvasCoords 1 (TouchEvent [] []) demoRect = None.
Proof.
  repeat split; try reflexivity;
    (eexists; split; [reflexivity|split; reflexivity]).
Qed.

(** *** Mode switching *)

Lemma switchMode_same (E : Env) (q : Page) :
  switchMode E (State.mode (state q)) q = q.
Proof. unfold switchMode. by rewrite Mode_eqb_refl. Qed.

(** C1, as stated, does not hold: confirming the switch to fixed mode sets
    [mode] and leaves [manualItems] as it was, so a manual item placed before
    the switch is still in the list afterwards. *)
Lemma confirmed_switch_keeps_manualItems :
  ~ (forall (E : Env) (p : Page),
       State.mode (state p) = manual ->
       let q := run E [ClickTemplate; ClickLanjutkan] p in
       State.mode (state q) = fixed /\ State.manualItems (state q) = []).
Proof.
  intros H.
  destruct (H demoEnv (run demoEnv [ClickFreeDrag; ClickCharm 0] initial) eq_refl)
    as [_ Hitems].
  vm_compute in Hitems. discriminate Hitems.
Qed.

(** C1, amended: from manual mode, "Template" only opens the confirmation
    and changes no state; "Ya, Lanjutkan" then sets [mode] to fixed and
    leaves every other field, [manualItems] included, as it was; "Batal"
    leaves the state unchanged; switching to the current mode is a no-op.
    The manual placements are dropped by the next switch to manual mode,
    which replaces [manualItems] by the items made from the slots. *)
Theorem switch_to_fixed_is_confirmed (E : Env) (p : Page) :
  State.mode (state p) = manual ->
  let asked := run E [ClickTemplate] p in
  let confirmed := run E [ClickTemplate; ClickLanjutkan] p in
  let declined := run E [ClickTemplate; ClickBatal] p in
  (state asked = state p /\ ConfirmModal.isOpen (confirmModal asked) = true)
  /\ (State.mode (state confirmed) = fixed
      /\ State.manualItems (state confirmed) = State.manualItems (state p)
      /\ state confirmed = State.set_mode fixed (state p))
  /\ state declined = state p
  /\ (forall q, switchMode E (State.mode (state q)) q = q)
  /\ State.manualItems (state (run E [ClickTemplate; ClickLanjutkan; ClickFreeDrag] p))
     = fst (slotsToItems E (State.slots (state p)) (uuidCalls p)).
Proof.
  intros Hmode.
  destruct p as [[m bi sl items zm] ed d off cm n]. simpl in Hmode. subst m.
  cbn. repeat split; try reflexivity.
  - apply switchMode_same.
  - by destruct (slotsToItems E sl n).
Qed.

Lemma switch_to_fixed_is_confirmed_witness :
  let p := run demoEnv [ClickFreeDrag; ClickCharm 0] initial in
  State.mode (state p) = manual
  /\ State.manualItems (state (run demoEnv [ClickTemplate; ClickLanjutkan] p))
     = State.manualItems (state p).
Proof.
  split; [reflexivity|].
  apply (switch_to_fixed_is_confirmed demoEnv
           (run demoEnv [ClickFreeDrag; ClickCharm 0] initial)).
  reflexivity.
Defined.

Lemma slotsToItems_spec (E : Env) (sl : Slots.t) (n : nat) :
  slotsToItems E sl n
  = (imap (fun k '(charm, pos) =>
             CharmItem.mk (uuid E (n + k)) charm (Position.x pos)
                          (Position.y pos) (Position.scale pos))
          (populatedSlots sl),
     n + length (populatedSlots sl)).
Proof.
  destruct sl as [[a|] [b|] [c|]]; cbn;
    rewrite ?Nat.add_0_r, ?Nat.add_1_r, <- ?Nat.add_succ_comm, ?Nat.add_0_r;
    reflexivity.
Qed.

Lemma imap_ids_seq (E : Env) (n : nat) (pop : list (Z * Position.t)) :
  map CharmItem.id
      (imap (fun k '(charm, pos) =>
               CharmItem.mk (uuid E (n + k)) charm (Position.x pos)
                            (Position.y pos) (Position.scale pos)) pop)
  = map (uuid E) (seq n (length pop)).
Proof.
  revert n. induction pop as [|[charm pos] pop IH]; intros n; [reflexivity|].
  cbn. rewrite Nat.add_0_r. f_equal.
  rewrite <- IH. f_equal. apply imap_ext. intros k [c q] _. cbn.
  by rewrite Nat.add_succ_r.
Qed.

(** C2: from fixed mode, "Free Drag" enters manual mode in the editing
    sub-state with exactly one item per populated slot, in the order bottom,
    middle, top, each at its slot's entry of [CHARM_POSITIONS] and with the
    result of a [randomUUID] call of its own; when the calls of [randomUUID]
    return pairwise different values, the ids differ from one another and
    from every id generated before.  With only the bottom slot populated the
    result is the single item at (0.5, 0.85) with scale 0.28. *)
Theorem switch_to_manual_makes_items (E : Env) (p : Page) :
  State.mode (state p) = fixed ->
  (forall i j, uuid E i = uuid E j -> i = j) ->
  let q := switchMode E manual p in
  let pop := populatedSlots (State.slots (state p)) in
  let items := State.manualItems (state q) in
  (State.mode (state q) = manual /\ isEditing q = true)
  /\ items = imap (fun k '(charm, pos) =>
                     CharmItem.mk (uuid E (uuidCalls p + k)) charm
                       (Position.x pos) (Position.y pos) (Position.scale pos))
                  pop
  /\ length items = length pop
  /\ uuidCalls q = uuidCalls p + length pop
  /\ NoDup (map CharmItem.id items)
  /\ (forall k, k < uuidCalls p -> ~ In (uuid E k) (map CharmItem.id items))
  /\ (forall c, State.slots (state p) = Slots.mk (Some c) None None ->
        items = [CharmItem.mk (uuid E (uuidCalls p)) c 0.5 0.85 0.28]).
Proof.
  intros Hmode Hinj q pop items.
  assert (Hq : State.mode (state q) = manual /\ isEditing q = true
               /\ items = fst (slotsToItems E (State.slots (state p)) (uuidCalls p))
               /\ uuidCalls q = snd (slotsToItems E (State.slots (state p)) (uuidCalls p))).
  { subst q items. unfold switchMode. rewrite Hmode. cbn.
    by destruct (slotsToItems E (State.slots (state p)) (uuidCalls p)). }
  destruct Hq as (Hm & He & Hitems & Hcalls).
  rewrite slotsToItems_spec in Hitems, Hcalls. cbn in Hitems, Hcalls.
  fold pop in Hitems, Hcalls.
  assert (Hids : map CharmItem.id items = map (uuid E) (seq (uuidCalls p) (length pop))).
  { rewrite Hitems. apply imap_ids_seq. }
  repeat split; try assumption.
  - rewrite Hitems. apply length_imap.
  - rewrite Hids. apply NoDup_ListNoDup, Finite.Injective_map_NoDup.
    + intros i j. apply Hinj.
    + apply List.seq_NoDup.
  - intros k Hk Hin. rewrite Hids in Hin. apply in_map_iff in Hin.
    destruct Hin as (j & Hj & Hin). apply Hinj in Hj. subst j.
    apply in_seq in Hin. lia.
  - intros c Hsl. rewrite Hitems. subst pop. rewrite Hsl. cbn.
    by rewrite Nat.add_0_r.
Qed.

Lemma switch_to_manual_makes_items_witness :
  let p := run demoEnv [SlotSelect slotA 1] initial in
  State.manualItems (state (switchMode demoEnv manual p))
  = [CharmItem.mk (demoUuid 0) 1 0.5 0.85 0.28].
Proof.
  pose proof (switch_to_manual_makes_items demoEnv
                (run demoEnv [SlotSelect slotA 1] initial)
                eq_refl demoUuid_inj) as H.
  cbv zeta in H. destruct H as (_ & _ & _ & _ & _ & _ & H).
  apply (H 1%Z). reflexivity.
Defined.

(** *** The invariant of the reachable pages *)

Lemma idsOK_nil (E : Env) (n : nat) : idsOK E n [].
Proof. exists []. repeat split; constructor. Qed.

Lemma idsOK_mono (E : Env) (n m : nat) (items : list CharmItem.t) :
  n <= m -> idsOK E n items -> idsOK E m items.
Proof.
  intros Hle (ks & Hids & Hnd & Hlt). exists ks. repeat split; try assumption.
  eapply Forall_impl; [exact Hlt|]. cbn. lia.
Qed.

Lemma idsOK_same_ids (E : Env) (n : nat) (items items' : list CharmItem.t) :
  map CharmItem.id items' = map CharmItem.id items ->
  idsOK E n items -> idsOK E n items'.
Proof. intros Heq (ks & Hids & H). exists ks. by rewrite Heq. Qed.

Lemma idsOK_push (E : Env) (n : nat) (items : list CharmItem.t)
    (charm : Z) (x y z : Q) :
  idsOK E n items ->
  idsOK E (S n) (items ++ [CharmItem.mk (uuid E n) charm x y z]).
Proof.
  intros (ks & Hids & Hnd & Hlt). exists (ks ++ [n]). repeat split.
  - by rewrite !map_app, Hids.
  - apply NoDup_app. repeat split; [assumption| |apply NoDup_singleton].
    intros k Hk Hn. apply list_elem_of_singleton in Hn. subst k.
    rewrite Forall_forall in Hlt. apply Hlt in Hk. lia.
  - apply Forall_app. split.
    + eapply Forall_impl; [exact Hlt|]. cbn. lia.
    + repeat constructor.
Qed.

Lemma idsOK_slots (E : Env) (n : nat) (sl : Slots.t) :
  idsOK E (snd (slotsToItems E sl n)) (fst (slotsToItems E sl n)).
Proof.
  rewrite slotsToItems_spec. cbn.
  exists (seq n (length (populatedSlots sl))). repeat split.
  - apply imap_ids_seq.
  - apply NoDup_ListNoDup, List.seq_NoDup.
  - apply Forall_forall. intros k Hk. apply elem_of_seq in Hk. lia.
Qed.

Lemma moveItem_ids (dragged : string) (coords offset : Point.t)
    (items : list CharmItem.t) :
  map CharmItem.id (map (moveItem dragged coords offset) items)
  = map CharmItem.id items.
Proof.
  rewrite map_map. apply map_ext. intros item. unfold moveItem.
  by destruct (String.eqb (CharmItem.id item) dragged).
Qed.

Lemma zoomOK_default : zoomOK defaultState.
Proof. unfold zoomOK, inRange. cbn. lra. Qed.

Lemma zoomIn_ok (q : Q) : inRange 0.4 2 q -> inRange 0.4 2 (Qmin (q + 0.1) 2).
Proof.
  intros [Hlo Hhi]. split.
  - apply Q.min_glb; lra.
  - apply Q.le_min_r.
Qed.

Lemma zoomOut_ok (q : Q) : inRange 0.4 2 q -> inRange 0.4 2 (Qmax (q - 0.1) 0.4).
Proof.
  intros [Hlo Hhi]. split.
  - apply Q.le_max_r.
  - apply Q.max_lub; lra.
Qed.

Lemma Inv_initial (E : Env) : Inv E initial.
Proof.
  split; [exact zoomOK_default|]. split; [apply idsOK_nil|].
  intros c. split; trivial.
Qed.

Lemma Inv_switchMode (E : Env) (m : Mode) (p : Page) :
  Inv E p -> Inv E (switchMode E m p).
Proof.
  intros H. unfold switchMode.
  destruct (Mode_eqb m (State.mode (state p))); [exact H|].
  destruct H as (Hz & Hi & Hc). destruct m.
  - (* to fixed: only the modal changes *)
    split; [|split]; [assumption|assumption|].
    intros c. cbn. split; intros; assumption.
  - destruct (State.mode (state p)); [|by split].
    pose proof (idsOK_slots E (uuidCalls p) (State.slots (state p))) as Hs.
    destruct (slotsToItems E (State.slots (state p)) (uuidCalls p)) as [items calls].
    split; [|split]; assumption.
Qed.

Lemma Inv_handleCanvasMouseDown (E : Env) e canvas (p : Page) :
  Inv E p -> Inv E (handleCanvasMouseDown e canvas p).
Proof.
  intros H. unfold handleCanvasMouseDown.
  repeat case_match; assumption.
Qed.

Lemma Inv_handleCanvasMouseMove (E : Env) e canvas (p : Page) :
  Inv E p -> Inv E (handleCanvasMouseMove e canvas p).
Proof.
  intros H. unfold handleCanvasMouseMove.
  repeat case_match; try assumption.
  destruct H as (Hz & Hi & Hc). split; [|split]; [assumption| |assumption].
  cbn. eapply idsOK_same_ids; [apply moveItem_ids|assumption].
Qed.

Lemma Inv_push (E : Env) (p : Page) (charm : Z) (x y z : Q) :
  Inv E p ->
  Inv E (setState
           (fun s => State.set_manualItems
                       (State.manualItems s
                        ++ [CharmItem.mk (uuid E (uuidCalls p)) charm x y z]) s)
           (setUuidCalls (S (uuidCalls p)) p)).
Proof.
  intros (Hz & Hi & Hc). split; [|split]; [assumption| |assumption].
  cbn. by apply idsOK_push.
Qed.

Lemma Inv_handleDrop (E : Env) data e canvas (p : Page) :
  Inv E p -> Inv E (handleDrop E data e canvas p).
Proof.
  intros H. unfold handleDrop, randomUUID.
  repeat case_match; try assumption. by apply Inv_push.
Qed.

Lemma Inv_confirmYes (E : Env) (p : Page) : Inv E p -> Inv E (confirmYes p).
Proof.
  intros (Hz & Hi & Hc).
  destruct (Hc (state p, isEditing p)) as [Hcz Hci].
  split; [|split]; [by apply Hcz|by apply Hci|assumption].
Qed.

Lemma Inv_dispatch (E : Env) (ev : Event) (p : Page) :
  Inv E p -> Inv E (dispatch E ev p).
Proof.
  intros H. destruct ev; cbn [dispatch].
  - case_match; [|assumption]. destruct H as (Hz & Hi & Hc). by split.
  - by apply Inv_switchMode.
  - by apply Inv_switchMode.
  - case_match; [|assumption]. exact H.
  - case_match; [|assumption]. exact H.
  - by apply Inv_handleCanvasMouseDown.
  - by apply Inv_handleCanvasMouseMove.
  - unfold handleCanvasMouseUp. case_match; [|assumption]. exact H.
  - by apply Inv_handleDrop.
  - destruct H as (Hz & Hi & Hc). split; [|by split]. by apply zoomIn_ok.
  - destruct H as (Hz & Hi & Hc). split; [|by split]. by apply zoomOut_ok.
  - case_match; [|assumption]. destruct H as (Hz & Hi & Hc). by split.
  - case_match; [|assumption]. destruct H as (Hz & Hi & Hc). by split.
  - case_match; [|assumption]. unfold onClickCharm, randomUUID.
    case_match; [|assumption]. by apply Inv_push.
  - case_match; [|assumption]. destruct H as (Hz & Hi & Hc).
    split; [assumption|]. split; [apply idsOK_nil|assumption].
  - destruct H as (Hz & Hi & Hc). split; [assumption|]. split; [assumption|].
    intros c. split; intros; [exact zoomOK_default|apply idsOK_nil].
  - case_match; [|assumption]. exact H.
  - case_match; [|assumption]. by apply Inv_confirmYes.
Qed.

Lemma Inv_run (E : Env) (evs : list Event) (p : Page) :
  Inv E p -> Inv E (run E evs p).
Proof.
  revert p. induction evs as [|ev evs IH]; intros p H; [exact H|].
  cbn. apply IH. by apply Inv_dispatch.
Qed.

(** C3: starting from the default zoom 0.65, the zoom factor stays within
    [0.4, 2] whatever the user does.  The zoom is updated by two buttons
    only: "zoom in" adds 0.1 and clamps the sum to at most 2, "zoom out"
    subtracts 0.1 and clamps the difference to at least 0.4; no sequence of
    these, mixed with any other events, moves the zoom out of the range. *)
Theorem zoom_always_in_range (E : Env) (evs : list Event) :
  (State.zoom (state initial) == 0.65)%Q
  /\ (forall p,
        State.zoom (state (dispatch E ClickZoomIn p))
        = Qmin (State.zoom (state p) + 0.1) 2
        /\ State.zoom (state (dispatch E ClickZoomOut p))
           = Qmax (State.zoom (state p) - 0.1) 0.4)
  /\ (0.4 <= State.zoom (state (run E evs initial))
      /\ State.zoom (state (run E evs initial)) <= 2)%Q.
Proof.
  split; [reflexivity|]. split; [by intros p|].
  apply (Inv_run E evs initial (Inv_initial E)).
Qed.

(** *** Dragging *)

Lemma moveItem_other (dragged : string) (coords offset : Point.t)
    (item : CharmItem.t) :
  CharmItem.id item <> dragged -> moveItem dragged coords offset item = item.
Proof.
  intros Hne. unfold moveItem.
  destruct (String.eqb_spec (CharmItem.id item) dragged); [contradiction|reflexivity].
Qed.

Lemma moveItem_absent (dragged : string) (coords offset : Point.t)
    (items : list CharmItem.t) :
  (forall item, In item items -> CharmItem.id item <> dragged) ->
  map (moveItem dragged coords offset) items = items.
Proof.
  intros H. rewrite <- (map_id items) at 2. apply map_ext_in.
  intros item Hin. by apply moveItem_other, H.
Qed.

Lemma moveItem_keeps (dragged : string) (coords offset : Point.t)
    (item : CharmItem.t) :
  let item' := moveItem dragged coords offset item in
  CharmItem.id item' = CharmItem.id item
  /\ CharmItem.charmIndex item' = CharmItem.charmIndex item
  /\ CharmItem.z item' = CharmItem.z item.
Proof.
  unfold moveItem. by destruct (String.eqb (CharmItem.id item) dragged).
Qed.

Lemma map_lookup {T U : Type} (f : T -> U) (l : list T) (i : nat) :
  map f l !! i = f <$> (l !! i).
Proof. change (map f l) with (f <$> l). apply list_lookup_fmap. Qed.

Lemma mouseMove_active (e : PointerEvent) (rect : DOMRect.t) (p : Page)
    (dragged : string) (coords : Point.t) :
  draggedItem p = Some dragged -> dragged <> "" ->
  State.mode (state p) = manual -> isEditing p = true ->
  getCanvasCoords (State.zoom (state p)) e rect = Some coords ->
  handleCanvasMouseMove e (Some rect) p
  = setState
      (fun s => State.set_manualItems
                  (map (moveItem dragged coords (dragOffset p))
                       (State.manualItems s)) s) p.
Proof.
  intros Hd Hne Hm He Hg. unfold handleCanvasMouseMove.
  rewrite Hd, Hm, He, Hg. cbn.
  by destruct (String.eqb_spec dragged "").
Qed.

Lemma mouseMove_dragged (e : PointerEvent) (rect : DOMRect.t) (p : Page)
    (dragged : string) (coords : Point.t) (i : nat) (item : CharmItem.t) :
  draggedItem p = Some dragged -> dragged <> "" ->
  State.mode (state p) = manual -> isEditing p = true ->
  getCanvasCoords (State.zoom (state p)) e rect = Some coords ->
  State.manualItems (state p) !! i = Some item ->
  CharmItem.id item = dragged ->
  State.manualItems (state (handleCanvasMouseMove e (Some rect) p)) !! i
  = Some (CharmItem.mk (CharmItem.id item) (CharmItem.charmIndex item)
            (Point.x coords - Point.x (dragOffset p))
            (Point.y coords - Point.y (dragOffset p))
            (CharmItem.z item)).
Proof.
  intros Hd Hne Hm He Hg Hl Hid.
  rewrite (mouseMove_active _ _ _ _ _ Hd Hne Hm He Hg).
  cbn. rewrite map_lookup, Hl. cbn. unfold moveItem.
  by destruct (String.eqb_spec (CharmItem.id item) dragged).
Qed.

(** What a pointer move does to the page: nothing, or [moveItem] mapped
    over [manualItems] and every other hook as it was. *)
Lemma mouseMove_cases (e : PointerEvent) (canvas : option DOMRect.t) (p : Page) :
  handleCanvasMouseMove e canvas p = p
  \/ exists dragged rect coords,
       draggedItem p = Some dragged /\ canvas = Some rect
       /\ getCanvasCoords (State.zoom (state p)) e rect = Some coords
       /\ handleCanvasMouseMove e canvas p
          = setState
              (fun s => State.set_manualItems
                          (map (moveItem dragged coords (dragOffset p))
                               (State.manualItems s)) s) p.
Proof.
  unfold handleCanvasMouseMove. repeat case_match; subst; try by left.
  right. by eexists _, _, _.
Qed.

Lemma setState_move_absent (p : Page) (dragged : string) (coords : Point.t) :
  (forall item, In item (State.manualItems (state p)) ->
                CharmItem.id item <> dragged) ->
  setState
    (fun s => State.set_manualItems
                (map (moveItem dragged coords (dragOffset p))
                     (State.manualItems s)) s) p = p.
Proof.
  destruct p as [[m bi sl items zm] ed d off cm n]. cbn. intros H.
  unfold setState, State.set_manualItems. cbn. by rewrite moveItem_absent.
Qed.

(** C5: a pointer move changes, in [manualItems], nothing but the x and y of
    the items whose id is the dragged one.  The list keeps its length; an
    item with another id is the same record at the same position; every item
    keeps its id, charmIndex and z; when no item carries the dragged id the
    whole page is unchanged; the other fields of the state never change; and
    during an active drag the dragged item moves to the pointer's canvas
    coordinates minus the recorded offset. *)
Theorem move_updates_only_dragged (e : PointerEvent)
    (canvas : option DOMRect.t) (p : Page) :
  let q := handleCanvasMouseMove e canvas p in
  let items := State.manualItems (state p) in
  let items' := State.manualItems (state q) in
  length items' = length items
  /\ (forall i item, items !! i = Some item ->
        Some (CharmItem.id item) <> draggedItem p -> items' !! i = Some item)
  /\ (forall i item, items !! i = Some item ->
        exists item', items' !! i = Some item'
          /\ CharmItem.id item' = CharmItem.id item
          /\ CharmItem.charmIndex item' = CharmItem.charmIndex item
          /\ CharmItem.z item' = CharmItem.z item)
  /\ ((forall item, In item items -> Some (CharmItem.id item) <> draggedItem p) ->
      q = p)
  /\ (State.mode (state q) = State.mode (state p)
      /\ State.baseIndex (state q) = State.baseIndex (state p)
      /\ State.slots (state q) = State.slots (state p)
      /\ State.zoom (state q) = State.zoom (state p))
  /\ (forall dragged rect coords i item,
        draggedItem p = Some dragged -> dragged <> "" ->
        State.mode (state p) = manual -> isEditing p = true ->
        canvas = Some rect ->
        getCanvasCoords (State.zoom (state p)) e rect = Some coords ->
        items !! i = Some item -> CharmItem.id item = dragged ->
        items' !! i
        = Some (CharmItem.mk (CharmItem.id item) (CharmItem.charmIndex item)
                  (Point.x coords - Point.x (dragOffset p))
                  (Point.y coords - Point.y (dragOffset p))
                  (CharmItem.z item))).
Proof.
  intros q items items'.
  assert (Hactive : forall dragged rect coords i item,
        draggedItem p = Some dragged -> dragged <> "" ->
        State.mode (state p) = manual -> isEditing p = true ->
        canvas = Some rect ->
        getCanvasCoords (State.zoom (state p)) e rect = Some coords ->
        items !! i = Some item -> CharmItem.id item = dragged ->
        items' !! i
        = Some (CharmItem.mk (CharmItem.id item) (CharmItem.charmIndex item)
                  (Point.x coords - Point.x (dragOffset p))
                  (Point.y coords - Point.y (dragOffset p))
                  (CharmItem.z item))).
  { intros dragged rect coords i item Hd Hne Hm He Hc Hg Hl Hid.
    subst items' q canvas. by apply (mouseMove_dragged _ _ _ dragged). }
  destruct (mouseMove_cases e canvas p) as [Hq|(d & rect & coords & Hd & Hc & Hg & Hq)];
    fold q in Hq.
  - (* nothing happens *)
    assert (Hi : items' = items) by (subst items'; by rewrite Hq).
    rewrite Hi, Hq. split; [reflexivity|]. split; [by intros|].
    split; [intros i item Hl; by exists item|].
    split; [reflexivity|]. split; [done|].
    intros. rewrite <- Hi. by eapply Hactive.
  - (* [moveItem] is mapped over the list *)
    assert (Hi : items' = map (moveItem d coords (dragOffset p)) items)
      by (subst items'; by rewrite Hq).
    rewrite Hi. split; [apply length_map|].
    split.
    { intros i item Hl Hne. rewrite map_lookup, Hl. cbn. f_equal.
      apply moveItem_other. intros Heq. apply Hne. by rewrite Heq, Hd. }
    split.
    { intros i item Hl. rewrite map_lookup, Hl. cbn. eexists. split; [reflexivity|].
      apply moveItem_keeps. }
    split.
    { intros Habs. rewrite Hq. apply setState_move_absent.
      intros item Hin Heq. apply (Habs item Hin). by rewrite Heq, Hd. }
    split; [by rewrite Hq|].
    intros. rewrite <- Hi. by eapply Hactive.
Qed.

Lemma move_updates_only_dragged_witness :
  let p := handleCanvasMouseDown (MouseEvent 400 400) (Some demoRect)
             (run demoEnv [ClickFreeDrag; ClickCharm 0; ClickCharm 1] initial) in
  let q := handleCanvasMouseMove (MouseEvent 465 400) (Some demoRect) p in
  State.manualItems (state q) !! 0%nat = State.manualItems (state p) !! 0%nat
  /\ exists item, State.manualItems (state q) !! 1%nat = Some item
                  /\ (CharmItem.x item == 0.625)%Q /\ (CharmItem.y item == 0.5)%Q.
Proof.
  intros p q.
  pose proof (move_updates_only_dragged (MouseEvent 465 400) (Some demoRect) p) as H.
  cbv zeta in H. destruct H as (_ & Hother & _ & _ & _ & Hdragged).
  split.
  - eapply Hother; [reflexivity|]. vm_compute. discriminate.
  - eexists. split.
    + eapply (Hdragged _ _ _ 1%nat);
        [reflexivity|vm_compute; discriminate|reflexivity|reflexivity
        |reflexivity|vm_compute; reflexivity|reflexivity|reflexivity].
    + split; vm_compute; reflexivity.
Defined.

(** *** Positions of the items *)

Lemma position_in_unit (pos : Position.t) :
  pos = CHARM_POSITIONS.A \/ pos = CHARM_POSITIONS.B \/ pos = CHARM_POSITIONS.C ->
  inUnit (Position.x pos) /\ inUnit (Position.y pos).
Proof.
  intros [-> | [-> | ->]]; unfold inUnit; cbn; repeat split; lra.
Qed.

Lemma populatedSlots_positions (sl : Slots.t) (charm : Z) (pos : Position.t) :
  In (charm, pos) (populatedSlots sl) ->
  pos = CHARM_POSITIONS.A \/ pos = CHARM_POSITIONS.B \/ pos = CHARM_POSITIONS.C.
Proof.
  destruct sl as [[a|] [b|] [c|]]; cbn; intros H;
    repeat (destruct H as [H|H]; [inversion H; auto|]); contradiction.
Qed.

Lemma slotsToItems_positions (E : Env) (sl : Slots.t) (n : nat)
    (item : CharmItem.t) :
  In item (fst (slotsToItems E sl n)) ->
  exists charm pos, In (charm, pos) (populatedSlots sl)
    /\ CharmItem.x item = Position.x pos /\ CharmItem.y item = Position.y pos
    /\ CharmItem.z item = Position.scale pos.
Proof.
  rewrite slotsToItems_spec. cbn. intros Hin.
  apply list_elem_of_In, elem_of_lookup_imap in Hin.
  destruct Hin as (k & [charm pos] & -> & Hl).
  exists charm, pos. repeat split.
  apply list_elem_of_In. by eapply list_elem_of_lookup_2.
Qed.

(** *** The image cache *)


Lemma loadImage_miss (E : Env) (src : option string) (L : Loader) :
  imageCache L !! src = None ->
  let k := length (decodes L) in
  let L1 := mkLoader (imageCache L) (decodes L ++ [src]) in
  loadImage E src L
  = match network E k src with
    | decoded w h | rejected (onload w h) =>
        (fulfilled (Some (HTMLImageElement.mk k src w h)),
         cacheSet src (HTMLImageElement.mk k src w h) L1)
    | rejected onerror => (fulfilled None, L1)
    | rejected silent => (pending, L1)
    end.
Proof.
  intros H. unfold loadImage, loadImage_call. rewrite H. cbn.
  by destruct (network E (length (decodes L)) src) as [w h|[w h| |]].
Qed.




(** *** Failed images *)

Lemma loadImage_resume_settles (E : Env) (r : Request) (L : Loader) :
  fst (loadImage_resume E r L) <> rejects
  /\ ((forall k src, network E k src <> rejected silent) ->
      fst (loadImage_resume E r L) <> pending).
Proof.
  destruct r as [img|k src]; cbn; [by split|].
  destruct (network E k src) as [w h|[w h| |]] eqn:Hn; cbn; split; try done.
  intros H _. by apply (H k src).
Qed.

Lemma resumeAll_settles (E : Env) (rs : list Request) (L : Loader) :
  all (fst (resumeAll E rs L)) <> rejects
  /\ ((forall k src, network E k src <> rejected silent) ->
      all (fst (resumeAll E rs L)) <> pending).
Proof.
  revert L. induction rs as [|r rs IH]; intros L; [by split|].
  cbn. pose proof (loadImage_resume_settles E r L) as [Hr Hp].
  destruct (loadImage_resume E r L) as [v L1]. cbn in Hr, Hp.
  specialize (IH L1). destruct (resumeAll E rs L1) as [vs L2]. cbn in *.
  destruct IH as [IHr IHp].
  destruct v as [v| |], (all vs) as [imgs| |];
    try (by destruct Hr); try (by destruct IHr);
    (split; [done|]); intros Hs;
    first [done|exact (IHp Hs)|by destruct (Hp Hs)].
Qed.

(** The render pass never throws: it either stays suspended, or makes its
    context calls and ends with [ctx.restore()]. *)
Lemma render_completes (E : Env) (s : State.t) (isEditing : bool)
    (dragged : option string) (isMounted : bool) (L : Loader) :
  (fst (render E s isEditing dragged isMounted L) = None
   \/ exists cmds, fst (render E s isEditing dragged isMounted L) = Some cmds
                   /\ last cmds = Some Restore)
  /\ ((forall k src, network E k src <> rejected silent) ->
      fst (render E s isEditing dragged isMounted L) <> None).
Proof.
  unfold render, render_call, render_resume.
  destruct (callAll _ L) as [rs L1].
  pose proof (resumeAll_settles E rs L1) as [Hr Hp].
  destruct (resumeAll E rs L1) as [ps L2]. cbn in Hr, Hp.
  destruct (all ps) as [images| |]; [|done|].
  - destruct isMounted; cbn [fst]; split; try done; right; eexists;
      (split; [reflexivity|]); [apply last_snoc|reflexivity].
  - cbn. split; [by left|]. intros Hs. by destruct (Hp Hs).
Qed.

(** *** The palette *)

Lemma idsOK_NoDup (E : Env) (n : nat) (items : list CharmItem.t) :
  (forall i j, uuid E i = uuid E j -> i = j) ->
  idsOK E n items -> NoDup (map CharmItem.id items).
Proof.
  intros Hinj (ks & -> & Hnd & _).
  apply NoDup_ListNoDup, Finite.Injective_map_NoDup; [exact Hinj|].
  by apply NoDup_ListNoDup.
Qed.

Lemma idsOK_fresh (E : Env) (n : nat) (items : list CharmItem.t) :
  (forall i j, uuid E i = uuid E j -> i = j) ->
  idsOK E n items -> ~ In (uuid E n) (map CharmItem.id items).
Proof.
  intros Hinj (ks & -> & _ & Hlt) Hin.
  apply in_map_iff in Hin. destruct Hin as (k & Hk & Hin).
  apply Hinj in Hk. subst k. rewrite Forall_forall in Hlt.
  apply list_elem_of_In, Hlt in Hin. lia.
Qed.

(** C10: in a reachable page in manual mode, a click on a charm of the
    palette while editing appends one item, at the end of the list, with the
    result of a new [randomUUID] call as id, the clicked charm, center
    (0.5, 0.5) and scale 0.28; when the calls of [randomUUID] return pairwise
    different values the id is carried by no other item.  The same click in
    the preview sub-mode leaves the page as it is. *)
Theorem palette_click_appends_centered_item (E : Env) (evs : list Event)
    (idx : nat) :
  let p := run E evs initial in
  State.mode (state p) = manual -> idx < length (animals E) ->
  (isEditing p = true ->
   let q := dispatch E (ClickCharm idx) p in
   let item := CharmItem.mk (uuid E (uuidCalls p)) (Z.of_nat idx) 0.5 0.5 0.28 in
   State.manualItems (state q) = State.manualItems (state p) ++ [item]
   /\ uuidCalls q = S (uuidCalls p)
   /\ ((forall i j, uuid E i = uuid E j -> i = j) ->
       ~ In (CharmItem.id item) (map CharmItem.id (State.manualItems (state p)))
       /\ NoDup (map CharmItem.id (State.manualItems (state q)))))
  /\ (isEditing p = false ->
      dispatch E (ClickCharm idx) p = p
      /\ State.manualItems (state (onClickCharm E idx p))
         = State.manualItems (state p)).
Proof.
  intros p Hm Hidx.
  pose proof (Inv_run E evs initial (Inv_initial E)) as Hinv. fold p in Hinv.
  apply Nat.ltb_lt in Hidx.
  split.
  - intros He q item.
    assert (Hq : q = setState
                       (fun s => State.set_manualItems
                                   (State.manualItems s ++ [item]) s)
                       (setUuidCalls (S (uuidCalls p)) p)).
    { subst q. cbn [dispatch]. rewrite Hm, Hidx. cbn.
      unfold onClickCharm, randomUUID. by rewrite He. }
    split; [by rewrite Hq|]. split; [by rewrite Hq|].
    intros Hinj. split.
    + destruct Hinv as (_ & Hids & _). by apply (idsOK_fresh E _ _ Hinj).
    + pose proof (Inv_dispatch E (ClickCharm idx) p Hinv) as (_ & Hids & _).
      by apply (idsOK_NoDup E _ _ Hinj Hids).
  - intros He. cbn [dispatch]. unfold onClickCharm. rewrite He.
    split; [by destruct (_ && _)|reflexivity].
Qed.

Lemma palette_click_appends_centered_item_witness :
  let p := run demoEnv [ClickFreeDrag] initial in
  State.manualItems (state (dispatch demoEnv (ClickCharm 1) p))
  = [CharmItem.mk (demoUuid 0) 1 0.5 0.5 0.28]
  /\ State.manualItems
       (state (dispatch demoEnv (ClickCharm 1) (dispatch demoEnv ClickPreview p)))
     = [].
Proof.
  split.
  - apply (palette_click_appends_centered_item demoEnv [ClickFreeDrag] 1);
      [reflexivity|cbn; lia|reflexivity].
  - destruct (palette_click_appends_centered_item demoEnv
                [ClickFreeDrag; ClickPreview] 1 eq_refl ltac:(cbn; lia))
      as [_ H].
    destruct (H eq_refl) as [H1 _].
    exact (f_equal (fun r => State.manualItems (state r)) H1).
Defined.

(** ** Further properties of the page *)

(** *** Reset *)

(** X1: "Reset" changes nothing until it is confirmed; once confirmed the
    state is the initial one (fixed mode, base 0, empty slots, no manual
    items, zoom 0.65) and the editing sub-mode is on, whatever the page was;
    declined, the state and the sub-mode are as before.  Either way the
    modal is closed afterwards. *)
Theorem reset_restores_defaults (E : Env) (p : Page) :
  let asked := run E [ClickReset] p in
  let confirmed := run E [ClickReset; ClickLanjutkan] p in
  let declined := run E [ClickReset; ClickBatal] p in
  (state asked = state p /\ isEditing asked = isEditing p
   /\ ConfirmModal.isOpen (confirmModal asked) = true)
  /\ (state confirmed = state initial /\ isEditing confirmed = true
      /\ ConfirmModal.isOpen (confirmModal confirmed) = false)
  /\ (state declined = state p /\ isEditing declined = isEditing p
      /\ ConfirmModal.isOpen (confirmModal declined) = false)
  /\ uuidCalls confirmed = uuidCalls p.
Proof. by destruct p as [s ed d off cm n]. Qed.

(** *** Ids *)

(** X2: in every reachable page the ids of [manualItems] are pairwise
    different, provided [randomUUID] never returns the same value twice. *)
Theorem ids_always_unique (E : Env) (evs : list Event) :
  (forall i j, uuid E i = uuid E j -> i = j) ->
  NoDup (map CharmItem.id (State.manualItems (state (run E evs initial)))).
Proof.
  intros Hinj.
  destruct (Inv_run E evs initial (Inv_initial E)) as (_ & Hids & _).
  by apply (idsOK_NoDup E _ _ Hinj Hids).
Qed.

Lemma ids_always_unique_witness :
  NoDup (map CharmItem.id
           (State.manualItems
              (state (run demoEnv
                        [SlotSelect slotA 0; ClickFreeDrag; ClickCharm 1;
                         Drop "0" (MouseEvent 400 400) (Some demoRect)]
                        initial)))).
Proof. apply (ids_always_unique demoEnv _ demoUuid_inj). Defined.

(** *** The canvas outside of manual editing *)

(** X3: outside of manual mode, and in manual mode's preview sub-mode, a
    press, a move, a drop and a click in the palette all leave the whole
    page as it is, whatever the pointer, the payload and the canvas. *)
Theorem interaction_needs_manual_editing (E : Env) (p : Page) :
  State.mode (state p) <> manual \/ isEditing p = false ->
  (forall e canvas, dispatch E (CanvasDown e canvas) p = p)
  /\ (forall e canvas, dispatch E (CanvasMove e canvas) p = p)
  /\ (forall data e canvas, dispatch E (Drop data e canvas) p = p)
  /\ (forall idx, dispatch E (ClickCharm idx) p = p).
Proof.
  intros H.
  assert (Hg : negb (Mode_eqb (State.mode (state p)) manual) || negb (isEditing p)
               = true).
  { destruct H as [H|H].
    - destruct (State.mode (state p)); [reflexivity|contradiction].
    - rewrite H. apply orb_true_r. }
  split; [|split; [|split]].
  - intros e canvas. cbn. unfold handleCanvasMouseDown. by rewrite Hg.
  - intros e canvas. cbn. unfold handleCanvasMouseMove.
    apply orb_true_iff in Hg. destruct Hg as [-> | ->];
      by rewrite ?orb_true_r.
  - intros data e canvas. cbn. unfold handleDrop. by rewrite Hg.
  - intros idx. cbn. unfold onClickCharm.
    apply orb_true_iff in Hg. destruct Hg as [Hg|Hg].
    + apply negb_true_iff in Hg. by rewrite Hg.
    + apply negb_true_iff in Hg. rewrite Hg. by destruct (_ && _).
Qed.

Lemma interaction_needs_manual_editing_witness :
  let p := run demoEnv [ClickFreeDrag; ClickCharm 0; ClickPreview] initial in
  dispatch demoEnv (CanvasDown (MouseEvent 400 400) (Some demoRect)) p = p.
Proof.
  intros p.
  destruct (interaction_needs_manual_editing demoEnv p (or_intror eq_refl))
    as [H _].
  apply H.
Defined.

(** *** A drag session *)

Lemma mouseDown_state (e : PointerEvent) (canvas : option DOMRect.t) (p : Page) :
  state (handleCanvasMouseDown e canvas p) = state p
  /\ isEditing (handleCanvasMouseDown e canvas p) = isEditing p.
Proof. unfold handleCanvasMouseDown. by repeat case_match. Qed.

(** X5: a release ends the drag: it changes neither the design nor the
    sub-mode, and after it no pointer move changes anything until the next
    press; a release when nothing is dragged changes nothing at all. *)
Theorem release_ends_drag (E : Env) (p : Page) :
  let released := dispatch E CanvasUp p in
  state released = state p
  /\ isEditing released = isEditing p
  /\ truthy (draggedItem released) = false
  /\ (forall e canvas, dispatch E (CanvasMove e canvas) released = released)
  /\ (truthy (draggedItem p) = false -> released = p).
Proof.
  cbn. unfold handleCanvasMouseUp.
  destruct (truthy (draggedItem p)) eqn:Ht; cbn.
  - by repeat split.
  - repeat split; try done. intros e canvas. unfold handleCanvasMouseMove.
    by rewrite Ht.
Qed.

(** *** What a pass draws *)

Lemma drawCharm_images (s : State.t) (isEditing : bool)
    (charmImages : list (option HTMLImageElement.t)) (idx : nat)
    (req : CharmRequest.t) :
  drawnImages (drawCharm s isEditing charmImages idx req)
  = match charmImages !! idx with
    | Some (Some img) => [img]
    | _ => []
    end.
Proof.
  unfold drawCharm. destruct (charmImages !! idx) as [[img|]|]; [|reflexivity..].
  destruct (charmRect req img) as [[[cx cy] cw] ch].
  by destruct (_ && _).
Qed.

Lemma drawnImages_app (l1 l2 : list Cmd) :
  drawnImages (l1 ++ l2) = drawnImages l1 ++ drawnImages l2.
Proof. apply omap_app. Qed.

Lemma drawCharms_images (s : State.t) (isEditing : bool)
    (charmImages : list (option HTMLImageElement.t))
    (requests : list CharmRequest.t) (k : nat) :
  drawnImages
    (concat (imap (fun i => drawCharm s isEditing charmImages (k + i)) requests))
  = omap id (take (length requests) (drop k charmImages)).
Proof.
  revert k. induction requests as [|req requests IH]; intros k; [reflexivity|].
  cbn [imap concat length]. rewrite drawnImages_app, drawCharm_images, Nat.add_0_r.
  rewrite (imap_ext _ (fun i => drawCharm s isEditing charmImages (S k + i)))
    by (intros; cbn; f_equal; lia).
  rewrite IH.
  destruct (charmImages !! k) as [o|] eqn:Hk.
  - rewrite (drop_S _ _ _ Hk). cbn. by destruct o.
  - apply lookup_ge_None in Hk.
    rewrite (drop_ge _ k), (drop_ge _ (S k)) by lia. by rewrite !take_nil.
Qed.

(** X10: a pass draws the layers bottom-up in list order: the images
    passed to [drawImage] are the base, when it is loaded, followed by the
    loaded charm images in the order of their requests, which is the order
    of [manualItems] in manual mode (later items on top) and bottom, middle,
    top slot in fixed mode; failed layers are left out and nothing else is
    drawn as an image. *)
Theorem layers_drawn_in_order (E : Env) (s : State.t) (isEditing : bool)
    (dragged : option string) (baseImg : option HTMLImageElement.t)
    (charmImages : list (option HTMLImageElement.t)) :
  let requests := charmRequests E s dragged in
  drawnImages (draw E s isEditing requests baseImg charmImages)
  = match baseImg with Some img => [img] | None => [] end
    ++ omap id (take (length requests) charmImages)
  /\ (State.mode s = manual ->
      map CharmRequest.id requests
      = map (fun item => Some (CharmItem.id item)) (State.manualItems s))
  /\ (State.mode s = fixed ->
      map geometry requests
      = map (fun '(charm, pos) =>
               (index (animals E) charm, Position.x pos, Position.y pos,
                Position.scale pos))
            (populatedSlots (State.slots s))).
Proof.
  intros requests. split; [|split].
  - unfold draw. rewrite !drawnImages_app.
    change (imap (drawCharm s isEditing charmImages) requests)
      with (imap (fun i => drawCharm s isEditing charmImages (0 + i)) requests).
    rewrite drawCharms_images. cbn [drop].
    by destruct baseImg.
  - intros Hm. subst requests. unfold charmRequests. rewrite Hm.
    by rewrite map_map.
  - intros Hm. subst requests. unfold charmRequests. rewrite Hm.
    by destruct (State.slots s) as [[a|] [b|] [c|]].
Qed.

Lemma layers_drawn_in_order_witness :
  let s := state (run demoEnv [ClickFreeDrag; ClickCharm 1; ClickCharm 0] initial) in
  map CharmRequest.path (charmRequests demoEnv s None)
  = [Some "/animals/1.png"; Some "/animals/0.png"]
  /\ map CharmRequest.id (charmRequests demoEnv s None)
     = [Some (demoUuid 0); Some (demoUuid 1)].
Proof.
  intros s. split; [reflexivity|].
  destruct (layers_drawn_in_order demoEnv s true None None []) as (_ & H & _).
  apply (H eq_refl).
Defined.

Lemma drawCharm_overlay (s : State.t) (isEditing : bool)
    (charmImages : list (option HTMLImageElement.t)) (idx : nat)
    (req : CharmRequest.t) (c : Cmd) :
  In c (drawCharm s isEditing charmImages idx req) -> isOverlay c = true ->
  State.mode s = manual /\ isEditing = true /\ CharmRequest.isSelected req = true.
Proof.
  unfold drawCharm. destruct (charmImages !! idx) as [[img|]|]; [|contradiction..].
  destruct (charmRect req img) as [[[cx cy] cw] ch].
  intros Hin Hc. apply in_app_iff in Hin. destruct Hin as [Hin|Hin].
  - cbn in Hin. repeat (destruct Hin as [<-|Hin]; [discriminate Hc|]).
    contradiction.
  - destruct (State.mode s); [contradiction|].
    destruct isEditing; [|contradiction].
    destruct (CharmRequest.isSelected req); [|contradiction].
    by repeat split.
Qed.

Lemma charmRequests_selected (E : Env) (s : State.t) (dragged : option string)
    (req : CharmRequest.t) :
  In req (charmRequests E s dragged) -> CharmRequest.isSelected req = true ->
  exists item, In item (State.manualItems s) /\ dragged = Some (CharmItem.id item).
Proof.
  unfold charmRequests. destruct (State.mode s).
  - intros Hin Hsel. exfalso.
    destruct (State.slots s) as [[a|] [b|] [c|]]; cbn in Hin;
      repeat (destruct Hin as [<-|Hin]; [discriminate Hsel|]); contradiction.
  - intros Hin Hsel. apply in_map_iff in Hin. destruct Hin as (item & <- & Hin).
    exists item. split; [assumption|]. cbn in Hsel. unfold sameId in Hsel.
    destruct dragged as [d|]; [|discriminate].
    apply String.eqb_eq in Hsel. by subst d.
Qed.

(** X11: the selection outline and its handle are drawn only during a
    drag in the editor: if a pass makes any of the calls that draw them, the
    page is in manual mode, the editing sub-mode is on, and the dragged id
    is the id of an item of the list.  Hence the preview sub-mode, fixed
    mode, and the editor while nothing is dragged give a clean picture. *)
Theorem overlay_only_while_dragging (E : Env) (s : State.t) (isEditing : bool)
    (dragged : option string) (baseImg : option HTMLImageElement.t)
    (charmImages : list (option HTMLImageElement.t)) (c : Cmd) :
  In c (draw E s isEditing (charmRequests E s dragged) baseImg charmImages) ->
  isOverlay c = true ->
  State.mode s = manual /\ isEditing = true
  /\ exists item, In item (State.manualItems s)
                  /\ dragged = Some (CharmItem.id item).
Proof.
  unfold draw. intros Hin Hc. cbn [app In] in Hin.
  do 5 (destruct Hin as [<-|Hin]; [discriminate Hc|]).
  apply in_app_iff in Hin. destruct Hin as [Hin|Hin].
  { exfalso. destruct baseImg; cbn in Hin;
      repeat (destruct Hin as [<-|Hin]; [discriminate Hc|]); contradiction. }
  destruct Hin as [<-|Hin]; [discriminate Hc|].
  apply in_concat in Hin. destruct Hin as (cmds & Hcmds & Hin).
  apply list_elem_of_In, elem_of_lookup_imap in Hcmds.
  destruct Hcmds as (idx & req & -> & Hreq).
  destruct (drawCharm_overlay _ _ _ _ _ _ Hin Hc) as (Hm & He & Hsel).
  split; [assumption|]. split; [assumption|].
  apply (charmRequests_selected E s dragged req); [|assumption].
  apply list_elem_of_In. by eapply list_elem_of_lookup_2.
Qed.

Lemma overlay_only_while_dragging_witness :
  let p := handleCanvasMouseDown (MouseEvent 400 400) (Some demoRect)
             (run demoEnv [ClickFreeDrag; ClickCharm 0] initial) in
  let img := Some (HTMLImageElement.mk 1 (Some "/animals/0.png") 100 100) in
  draggedItem p = Some (demoUuid 0).
Proof.
  intros p img.
  assert (Hin : In BeginPath
                  (draw demoEnv (state p) (isEditing p)
                     (charmRequests demoEnv (state p) (draggedItem p))
                     None [img])).
  { vm_compute. tauto. }
  destruct (overlay_only_while_dragging demoEnv _ _ _ _ _ _ Hin eq_refl)
    as (_ & _ & item & Hitem & Hd).
  destruct Hitem as [<-|[]]. exact Hd.
Defined.

(** *** Mode switches and the picture *)

(** X12: switching from fixed to manual mode does not change the
    picture: the requests of the new state have, in the same order, the same
    image paths, centers and scales as those of the old one, and the base,
    the slots and the zoom are unchanged. *)
Theorem switch_to_manual_keeps_picture (E : Env) (p : Page)
    (dragged dragged' : option string) :
  State.mode (state p) = fixed ->
  let q := switchMode E manual p in
  map geometry (charmRequests E (state q) dragged)
  = map geometry (charmRequests E (state p) dragged')
  /\ State.baseIndex (state q) = State.baseIndex (state p)
  /\ State.slots (state q) = State.slots (state p)
  /\ State.zoom (state q) = State.zoom (state p).
Proof.
  destruct p as [[m bi sl items zm] ed d off cm n]. cbn. intros ->.
  unfold switchMode. cbn.
  by destruct sl as [[a|] [b|] [c|]].
Qed.

Lemma switch_to_manual_keeps_picture_witness :
  let p := run demoEnv [SlotSelect slotA 1; SlotSelect slotC 0] initial in
  map geometry (charmRequests demoEnv (state (switchMode demoEnv manual p)) None)
  = [(Some "/animals/1.png", 0.5%Q, 0.85%Q, 0.28%Q);
     (Some "/animals/0.png", 0.5%Q, 0.31%Q, 0.28%Q)].
Proof.
  intros p.
  destruct (switch_to_manual_keeps_picture demoEnv p None None eq_refl) as [H _].
  rewrite H. reflexivity.
Defined.

Lemma edit_keeps_slots (E : Env) (ev : Event) (p : Page) :
  isEdit ev = true -> State.mode (state p) = manual ->
  State.mode (state (dispatch E ev p)) = manual
  /\ State.slots (state (dispatch E ev p)) = State.slots (state p).
Proof.
  intros Hev Hm. destruct ev; try discriminate Hev; cbn [dispatch].
  - by case_match.
  - by case_match.
  - by case_match.
  - by rewrite (proj1 (mouseDown_state e canvas p)).
  - destruct (mouseMove_cases e canvas p) as [->|(d & r & c & _ & _ & _ & ->)];
      by split.
  - unfold handleCanvasMouseUp. by case_match.
  - unfold handleDrop, randomUUID. by repeat case_match.
  - by split.
  - by split.
  - unfold onClickCharm, randomUUID. by repeat case_match.
  - by case_match.
Qed.

Lemma edits_keep_slots (E : Env) (evs : list Event) (p : Page) :
  forallb isEdit evs = true -> State.mode (state p) = manual ->
  State.mode (state (run E evs p)) = manual
  /\ State.slots (state (run E evs p)) = State.slots (state p).
Proof.
  revert p. induction evs as [|ev evs IH]; intros p Hevs Hm; [by split|].
  cbn in Hevs. apply andb_true_iff in Hevs. destruct Hevs as [Hev Hevs].
  destruct (edit_keeps_slots E ev p Hev Hm) as [Hm1 Hs1].
  destruct (IH (dispatch E ev p) Hevs Hm1) as [Hm2 Hs2].
  change (run E (ev :: evs) p) with (run E evs (dispatch E ev p)).
  split; [assumption|congruence].
Qed.

(** X13: a manual editing session does not touch the template.  From a
    page in fixed mode, entering manual mode, then any sequence of editing
    events (presses, moves, releases, drops, palette clicks, "remove all",
    sub-mode, base and zoom buttons), then "Template" confirmed, ends in
    fixed mode with the slots as they were, so the charm layers requested are
    those of the page before the session. *)
Theorem editing_session_keeps_template (E : Env) (evs : list Event) (p : Page) :
  State.mode (state p) = fixed -> forallb isEdit evs = true ->
  let q := run E (ClickFreeDrag :: evs ++ [ClickTemplate; ClickLanjutkan]) p in
  State.mode (state q) = fixed
  /\ State.slots (state q) = State.slots (state p)
  /\ forall dragged dragged',
       charmRequests E (state q) dragged = charmRequests E (state p) dragged'.
Proof.
  intros Hm Hevs q.
  set (p1 := dispatch E ClickFreeDrag p).
  assert (H1 : State.mode (state p1) = manual
               /\ State.slots (state p1) = State.slots (state p)).
  { subst p1. cbn. unfold switchMode. rewrite Hm. cbn.
    by destruct (slotsToItems _ _ _). }
  destruct H1 as [Hm1 Hs1].
  destruct (edits_keep_slots E evs p1 Hevs Hm1) as [Hm2 Hs2].
  assert (Hq : q = run E [ClickTemplate; ClickLanjutkan] (run E evs p1)).
  { subst q p1. unfold run. cbn [fold_left]. by rewrite fold_left_app. }
  set (p2 := run E evs p1) in *.
  assert (Hstate : state q = State.set_mode fixed (state p2)).
  { rewrite Hq. cbn. unfold switchMode. rewrite Hm2. by cbn. }
  assert (Hmq : State.mode (state q) = fixed) by (by rewrite Hstate).
  assert (Hsq : State.slots (state q) = State.slots (state p))
    by (rewrite Hstate; cbn; congruence).
  split; [assumption|]. split; [assumption|].
  intros d d'. unfold charmRequests. by rewrite Hmq, Hm, Hsq.
Qed.

Lemma editing_session_keeps_template_witness :
  let p := run demoEnv [SlotSelect slotB 1] initial in
  let q := run demoEnv
             (ClickFreeDrag
              :: [ClickCharm 0; CanvasDown (MouseEvent 400 400) (Some demoRect);
                  CanvasMove (MouseEvent 300 350) (Some demoRect); CanvasUp;
                  ClickRemoveAll]
              ++ [ClickTemplate; ClickLanjutkan]) p in
  charmRequests demoEnv (state q) None = charmRequests demoEnv (state p) None.
Proof.
  intros p q.
  destruct (editing_session_keeps_template demoEnv
              [ClickCharm 0; CanvasDown (MouseEvent 400 400) (Some demoRect);
               CanvasMove (MouseEvent 300 350) (Some demoRect); CanvasUp;
               ClickRemoveAll] p eq_refl eq_refl) as (_ & _ & H).
  apply H.
Defined.

(** *** The cache across render passes *)

Lemma LoaderOK_empty : LoaderOK emptyLoader.
Proof. intros src img H. cbn in H. by rewrite lookup_empty in H. Qed.

Lemma callAll_cached (paths : list (option string)) (L : Loader) :
  Forall (fun src => is_Some (imageCache L !! src)) paths ->
  exists imgs,
    Forall2 (fun src img => imageCache L !! src = Some img) paths imgs
    /\ callAll paths L = (map cached imgs, L).
Proof.
  induction 1 as [|src paths [img Himg] _ (imgs & Himgs & IH)].
  - by exists [].
  - exists (img :: imgs). split; [by constructor|].
    cbn [callAll]. unfold loadImage_call. rewrite Himg, IH. reflexivity.
Qed.

Lemma resumeAll_cached (E : Env) (imgs : list HTMLImageElement.t) (L : Loader) :
  resumeAll E (map cached imgs) L = (map (fun img => fulfilled (Some img)) imgs, L)
  /\ all (map (fun img => fulfilled (Some img)) imgs) = fulfilled (map Some imgs).
Proof.
  induction imgs as [|img imgs [IH1 IH2]]; [by split|].
  cbn. rewrite IH1, IH2. by split.
Qed.

(** X15: when every image a pass needs is cached, the pass does not
    depend on the browser any more: it starts no decode, leaves the loader
    as it is, never stays suspended, and draws the cached images, the base
    and every charm layer included. *)
Theorem cached_pass_completes (E : Env) (s : State.t) (isEditing : bool)
    (dragged : option string) (L : Loader) :
  Forall (fun src => is_Some (imageCache L !! src)) (renderPaths E s dragged) ->
  exists baseImg charmImgs,
    Forall2 (fun src img => imageCache L !! src = Some img)
            (renderPaths E s dragged) (baseImg :: charmImgs)
    /\ render E s isEditing dragged true L
       = (Some (draw E s isEditing (charmRequests E s dragged)
                     (Some baseImg) (map Some charmImgs) ++ [Restore]), L).
Proof.
  intros Hall. destruct (callAll_cached _ L Hall) as (imgs & Himgs & Hcall).
  destruct imgs as [|baseImg charmImgs]; [by inversion Himgs|].
  exists baseImg, charmImgs. split; [assumption|].
  unfold render, render_call, render_resume. rewrite Hcall.
  destruct (resumeAll_cached E (baseImg :: charmImgs) L) as [-> ->].
  reflexivity.
Qed.

Lemma cached_pass_completes_witness :
  let s := state (run demoEnv [SlotSelect slotA 0] initial) in
  let L := snd (render demoEnv s true None true emptyLoader) in
  snd (render brokenEnv s true None true L) = L.
Proof.
  intros s L.
  assert (Hall : Forall (fun src => is_Some (imageCache L !! src))
                        (renderPaths brokenEnv s None)).
  { repeat constructor; vm_compute; eexists; reflexivity. }
  destruct (cached_pass_completes brokenEnv s true None L Hall)
    as (baseImg & charmImgs & _ & ->).
  reflexivity.
Defined.

(** *** Slots *)

(** X16: in fixed mode, choosing a charm of the catalog for a slot sets
    that slot and no other, and leaves the rest of the state alone; clearing
    the slot afterwards empties it again and restores the other slots'
    view; in manual mode the slot controls are not there and neither event
    changes the page. *)
Theorem slot_controls_update_one_slot (E : Env) (p : Page) (slot : CharmSlot)
    (idx : nat) :
  idx < length (animals E) ->
  (State.mode (state p) = fixed ->
   let q := dispatch E (SlotSelect slot idx) p in
   getSlot slot (State.slots (state q)) = Some (Z.of_nat idx)
   /\ (forall slot', slot' <> slot ->
         getSlot slot' (State.slots (state q))
         = getSlot slot' (State.slots (state p)))
   /\ State.set_slots (State.slots (state p)) (state q) = state p
   /\ getSlot slot (State.slots (state (dispatch E (SlotClear slot) q))) = None
   /\ (forall slot', slot' <> slot ->
         getSlot slot' (State.slots (state (dispatch E (SlotClear slot) q)))
         = getSlot slot' (State.slots (state p))))
  /\ (State.mode (state p) = manual ->
      dispatch E (SlotSelect slot idx) p = p
      /\ dispatch E (SlotClear slot) p = p).
Proof.
  intros Hidx. apply Nat.ltb_lt in Hidx.
  destruct p as [[m bi [a b c] items zm] ed d off cm n]. cbn -[Nat.ltb].
  split; intros ->; cbn -[Nat.ltb]; rewrite ?Hidx; cbn -[Nat.ltb].
  - destruct slot; cbn; repeat split; try reflexivity;
      try (intros slot' Hne; destruct slot'; try reflexivity; contradiction).
  - by split.
Qed.

Lemma slot_controls_update_one_slot_witness :
  let q := run demoEnv [SlotSelect slotB 1; SlotSelect slotA 0; SlotClear slotA]
             initial in
  getSlot slotA (State.slots (state q)) = None
  /\ getSlot slotB (State.slots (state q)) = Some 1%Z.
Proof.
  intros q.
  destruct (slot_controls_update_one_slot demoEnv
              (run demoEnv [SlotSelect slotB 1] initial) slotA 0
              ltac:(cbn; lia)) as [H _].
  destruct (H eq_refl) as (_ & _ & _ & HA & Hother).
  split; [exact HA|].
  exact (Hother slotB ltac:(discriminate)).
Defined.

(** *** The confirm modal *)

(** X17: a confirmation is used up by either button: after "Batal" or
    "Ya, Lanjutkan" the modal is closed, and while it is closed neither
    button changes the page, so the closure kept by the modal runs at most
    once per request.  A request made while another one is open replaces
    it: the confirmation then applies the later request only. *)
Theorem confirmation_is_used_once (E : Env) (p : Page) (b1 b2 : Event) :
  (b1 = ClickBatal \/ b1 = ClickLanjutkan) ->
  (b2 = ClickBatal \/ b2 = ClickLanjutkan) ->
  ConfirmModal.isOpen (confirmModal (dispatch E b1 p)) = false
  /\ dispatch E b2 (dispatch E b1 p) = dispatch E b1 p
  /\ (State.mode (state p) = manual ->
      state (run E [ClickTemplate; ClickReset; ClickLanjutkan] p) = state initial
      /\ State.mode (state (run E [ClickReset; ClickTemplate; ClickLanjutkan] p))
         = fixed
      /\ State.manualItems
           (state (run E [ClickReset; ClickTemplate; ClickLanjutkan] p))
         = State.manualItems (state p)).
Proof.
  intros H1 H2.
  destruct p as [[m bi sl items zm] ed d off [op ti me f] n].
  split; [|split].
  - destruct H1 as [-> | ->]; cbn; by destruct op.
  - destruct H1 as [-> | ->], H2 as [-> | ->]; cbn; by destruct op.
  - cbn. by intros ->.
Qed.

Lemma confirmation_is_used_once_witness :
  let p := run demoEnv [ClickFreeDrag; ClickCharm 0; ClickTemplate; ClickLanjutkan]
             initial in
  dispatch demoEnv ClickLanjutkan p = p.
Proof.
  intros p.
  destruct (confirmation_is_used_once demoEnv
              (run demoEnv [ClickFreeDrag; ClickCharm 0; ClickTemplate] initial)
              ClickLanjutkan ClickLanjutkan (or_intror eq_refl) (or_intror eq_refl))
    as (_ & H & _).
  exact H.
Defined.

(** *** Superseded passes *)

(** X18: only a pass started during a drag is ever cancelled.  Once the
    cleanup of its effect has run, a pass that was started while an item was
    being dragged draws nothing when it resumes (it only calls
    [ctx.restore()]); a pass started while nothing was dragged still reads
    [isMounted] as true and makes exactly the context calls it would have
    made had it not been superseded, for the state it was started with. *)
Theorem only_drag_passes_are_cancelled (E : Env) (s : State.t) (isEditing : bool)
    (dragged : option string) (rs : list Request) (L : Loader) :
  let superseded :=
    render_resume E s isEditing dragged (isMountedAt dragged true) rs L in
  let current :=
    render_resume E s isEditing dragged (isMountedAt dragged false) rs L in
  snd superseded = snd current
  /\ (truthy dragged = false -> superseded = current)
  /\ (truthy dragged = true ->
      fst superseded = None \/ fst superseded = Some [Restore])
  /\ (fst current = None <-> fst superseded = None).
Proof.
  unfold isMountedAt, effectCleanup, render_resume.
  destruct (resumeAll E rs L) as [ps L1].
  destruct (truthy dragged); cbn; destruct (all ps); cbn;
    repeat split; try done; auto.
Qed.

Lemma only_drag_passes_are_cancelled_witness :
  let s := state (run demoEnv [ClickFreeDrag; ClickCharm 0] initial) in
  let rs := fst (render_call demoEnv s (Some (demoUuid 0)) emptyLoader) in
  let L := snd (render_call demoEnv s (Some (demoUuid 0)) emptyLoader) in
  fst (render_resume demoEnv s true (Some (demoUuid 0))
         (isMountedAt (Some (demoUuid 0)) true) rs L)
  = Some [Restore].
Proof.
  intros s rs L.
  destruct (only_drag_passes_are_cancelled demoEnv s true (Some (demoUuid 0)) rs L)
    as (_ & _ & H & _).
  destruct (H eq_refl) as [Hnone|Hsome]; [|exact Hsome].
  vm_compute in Hnone. discriminate Hnone.
Defined.

(** *** Further concrete runs *)

Lemma release_ends_drag_witness :
  let p := run demoEnv [ClickFreeDrag; ClickCharm 0] initial in
  dispatch demoEnv CanvasUp p = p.
Proof.
  intros p. destruct (release_ends_drag demoEnv p) as (_ & _ & _ & _ & H).
  apply H. reflexivity.
Defined.

(** ** The page with the canvas it has *)

(** *** Presses, moves and drops *)

(** With [canvasRef.current] the three handlers that read it return at
    [if (!canvas) return;]. *)
Lemma canvas_handlers_return (E : Env) (data : string) (e : PointerEvent)
    (p : Page) :
  handleCanvasMouseDown e canvasRef_current p = p
  /\ handleCanvasMouseMove e canvasRef_current p = p
  /\ handleDrop E data e canvasRef_current p = p.
Proof.
  unfold handleCanvasMouseDown, handleCanvasMouseMove, handleDrop,
    canvasRef_current.
  split; [|split]; repeat case_match; reflexivity.
Qed.

Lemma PageInv_initial : PageInv initial.
Proof. split; [reflexivity|]. split; [constructor|by intros c]. Qed.

Lemma PageInv_state (f : State.t -> State.t) (p : Page) :
  State.manualItems (f (state p)) = State.manualItems (state p) ->
  PageInv p -> PageInv (setState f p).
Proof.
  intros Hf (Hd & Hi & Hc). split; [exact Hd|]. split; [|exact Hc].
  cbn. by rewrite Hf.
Qed.

Lemma PageInv_switchMode (E : Env) (m : Mode) (p : Page) :
  PageInv p -> PageInv (switchMode E m p).
Proof.
  intros H. unfold switchMode.
  destruct (Mode_eqb m (State.mode (state p))); [exact H|].
  destruct H as (Hd & Hi & Hc). destruct m.
  - split; [exact Hd|]. split; [exact Hi|]. by intros c.
  - destruct (State.mode (state p)); [|by split].
    pose proof (slotsToItems_positions E (State.slots (state p)) (uuidCalls p))
      as Hs.
    destruct (slotsToItems E (State.slots (state p)) (uuidCalls p))
      as [items calls].
    split; [exact Hd|]. split; [|exact Hc].
    cbn. apply Forall_forall. intros item Hin.
    apply list_elem_of_In in Hin.
    destruct (Hs item Hin) as (charm & pos & Hpos & Hx & Hy & _).
    unfold unitItem. rewrite Hx, Hy.
    apply position_in_unit. by eapply populatedSlots_positions.
Qed.

Lemma PageInv_dispatch (E : Env) (ev : Event) (p : Page) :
  PageInv p -> PageInv (dispatch E (onPage ev) p).
Proof.
  intros H.
  destruct ev; cbn [onPage dispatch];
    rewrite ?(proj1 (canvas_handlers_return E "" _ p)),
            ?(proj1 (proj2 (canvas_handlers_return E "" _ p))),
            ?(proj2 (proj2 (canvas_handlers_return E _ _ p)));
    try exact H.
  - case_match; [|assumption]. by apply PageInv_state.
  - by apply PageInv_switchMode.
  - by apply PageInv_switchMode.
  - case_match; [|assumption]. exact H.
  - case_match; [|assumption]. exact H.
  - unfold handleCanvasMouseUp. case_match; [|assumption].
    destruct H as (Hd & Hi & Hc). by split.
  - case_match; [|assumption]. by apply PageInv_state.
  - case_match; [|assumption]. by apply PageInv_state.
  - case_match; [|assumption]. unfold onClickCharm, randomUUID.
    case_match; [|assumption]. destruct H as (Hd & Hi & Hc).
    split; [exact Hd|]. split; [|exact Hc].
    cbn. apply Forall_app. split; [exact Hi|].
    constructor; [|constructor]. unfold unitItem, inUnit, inRange. cbn.
    repeat split; lra.
  - case_match; [|assumption]. destruct H as (Hd & Hi & Hc).
    split; [exact Hd|]. split; [constructor|exact Hc].
  - destruct H as (Hd & Hi & Hc). split; [exact Hd|]. split; [exact Hi|].
    intros c _. constructor.
  - case_match; [|assumption]. exact H.
  - case_match; [|assumption]. destruct H as (Hd & Hi & Hc).
    split; [exact Hd|]. split; [|exact Hc].
    apply (Hc (state p, isEditing p)). exact Hi.
Qed.

Lemma PageInv_runPage (E : Env) (evs : list Event) (p : Page) :
  PageInv p -> PageInv (runPage E evs p).
Proof.
  revert p. induction evs as [|ev evs IH]; intros p H; [exact H|].
  unfold runPage. cbn [map run fold_left]. apply IH. by apply PageInv_dispatch.
Qed.

(** C4 (the behaviour of the page as written): a press on the canvas never
    selects an item.  [handleCanvasMouseDown] reads [canvasRef.current],
    which is [null] since the [<canvas>] element is given no [ref], and
    returns at [if (!canvas) return;] before the hit test: whatever the
    pointer event and whatever the page, the press changes nothing; along
    every run of the page no item is ever dragged; and in manual editing
    mode with one item at (0.5, 0.5) a press, wherever the pointer is and
    so also on the center of that item, selects nothing, where the
    specified behaviour is that the item is selected. *)
Theorem press_selects_nothing (E : Env) (e : PointerEvent) :
  (forall p, handleCanvasMouseDown e canvasRef_current p = p)
  /\ (forall evs, draggedItem (runPage E evs initial) = None)
  /\ (forall evs canvas,
        dispatch E (onPage (CanvasDown e canvas)) (runPage E evs initial)
        = runPage E evs initial)
  /\ let p := runPage demoEnv [ClickFreeDrag; ClickCharm 0] initial in
     State.mode (state p) = manual /\ isEditing p = true
     /\ State.manualItems (state p) = [CharmItem.mk (demoUuid 0) 0 0.5 0.5 0.28]
     /\ draggedItem (dispatch demoEnv (onPage (CanvasDown e (Some demoRect))) p)
        = None.
Proof.
  split; [|split; [|split]].
  - intros p. apply (canvas_handlers_return E "" e p).
  - intros evs. apply (PageInv_runPage E evs initial PageInv_initial).
  - intros evs canvas. cbn [onPage dispatch].
    apply (canvas_handlers_return E "" e).
  - cbn zeta. split; [reflexivity|]. split; [reflexivity|].
    split; [reflexivity|]. cbn [onPage dispatch].
    rewrite (proj1 (canvas_handlers_return demoEnv "" e _)). reflexivity.
Qed.

(** C6: for every state the page reaches and every element of
    [manualItems], the normalized center coordinates x and y lie in [0,1].
    Items are created by the slot conversion, at the three fixed positions,
    and by a click in the palette, at (0.5, 0.5); a drop and a drag move
    read [canvasRef.current], which is [null] on this page, and return
    before they create or move anything (neither would clamp the
    coordinates [getCanvasCoords] gives them). *)
Theorem items_stay_in_unit_square (E : Env) (evs : list Event) :
  Forall unitItem (State.manualItems (state (runPage E evs initial)))
  /\ (forall sl calls item,
        In item (fst (slotsToItems E sl calls)) -> unitItem item)
  /\ (forall idx p item,
        In item (State.manualItems (state (onClickCharm E idx p))) ->
        In item (State.manualItems (state p))
        \/ (CharmItem.x item = 0.5%Q /\ CharmItem.y item = 0.5%Q /\ unitItem item))
  /\ (forall data e p,
        handleDrop E data e canvasRef_current p = p
        /\ handleCanvasMouseMove e canvasRef_current p = p).
Proof.
  split; [|split; [|split]].
  - apply (PageInv_runPage E evs initial PageInv_initial).
  - intros sl calls item Hin.
    destruct (slotsToItems_positions E sl calls item Hin)
      as (charm & pos & Hpos & Hx & Hy & _).
    unfold unitItem. rewrite Hx, Hy.
    apply position_in_unit. by eapply populatedSlots_positions.
  - intros idx p item. unfold onClickCharm, randomUUID.
    destruct (isEditing p); [|by left]. cbn. intros Hin.
    apply in_app_iff in Hin. destruct Hin as [Hin|Hin]; [by left|].
    right. cbn in Hin. destruct Hin as [<-|[]]. cbn.
    split; [reflexivity|]. split; [reflexivity|].
    unfold unitItem, inUnit, inRange. cbn. repeat split; lra.
  - intros data e p. split; apply (canvas_handlers_return E data e p).
Qed.

Lemma items_stay_in_unit_square_witness :
  let p := runPage demoEnv [SlotSelect slotA 0; ClickFreeDrag] initial in
  State.manualItems (state p) = [CharmItem.mk (demoUuid 0) 0 0.5 0.85 0.28]
  /\ unitItem (CharmItem.mk (demoUuid 0) 0 0.5 0.85 0.28).
Proof.
  intros p. split; [reflexivity|].
  destruct (items_stay_in_unit_square demoEnv []) as (_ & H & _).
  apply (H (Slots.mk (Some 0%Z) None None) 0%nat).
  cbn. left. reflexivity.
Defined.

(** *** Decodes of a session *)








(** ** A pass and the images that fail *)

Lemma callAll_requests (paths : list (option string)) (L : Loader) :
  imageCache (snd (callAll paths L)) = imageCache L
  /\ Forall2 (fun src r => match imageCache L !! src with
                           | Some c => r = cached c
                           | None => exists k, r = decoding k src
                           end)
             paths (fst (callAll paths L)).
Proof.
  revert L. induction paths as [|src paths IH]; intros L; [by split|].
  cbn [callAll]. unfold loadImage_call.
  destruct (imageCache L !! src) as [img|] eqn:Hc.
  - specialize (IH L). destruct (callAll paths L) as [rs L1].
    cbn [fst snd] in *. destruct IH as [IHc IHr].
    split; [assumption|]. constructor; [by rewrite Hc|assumption].
  - specialize (IH (mkLoader (imageCache L) (decodes L ++ [src]))).
    destruct (callAll paths _) as [rs L1].
    cbn [fst snd imageCache] in *. destruct IH as [IHc IHr].
    split; [assumption|]. constructor; [rewrite Hc; by eexists|assumption].
Qed.

Lemma loadImage_resume_result (E : Env) (r : Request) (L : Loader) :
  settles E -> fst (loadImage_resume E r L) = fulfilled (imageOf E r).
Proof.
  intros Hs. destruct r as [img|k src]; [reflexivity|]. cbn.
  specialize (Hs k src).
  by destruct (network E k src) as [w h|[w h| |]].
Qed.

Lemma resumeAll_results (E : Env) (rs : list Request) (L : Loader) :
  settles E -> all (fst (resumeAll E rs L)) = fulfilled (map (imageOf E) rs).
Proof.
  intros Hs. revert L. induction rs as [|r rs IH]; intros L; [reflexivity|].
  cbn [resumeAll]. pose proof (loadImage_resume_result E r L Hs) as Hr.
  destruct (loadImage_resume E r L) as [v L1]. cbn [fst] in Hr. subst v.
  specialize (IH L1). destruct (resumeAll E rs L1) as [vs L2].
  cbn [fst] in *. cbn [all map]. by rewrite IH.
Qed.

(** When the browser settles every image, a pass draws with the results of
    its resolutions, the base first. *)
Lemma render_draws (E : Env) (s : State.t) (isEditing : bool)
    (dragged : option string) (L : Loader) :
  settles E ->
  exists baseImg charmImages L',
    render E s isEditing dragged true L
    = (Some (draw E s isEditing (charmRequests E s dragged) baseImg charmImages
             ++ [Restore]), L')
    /\ resolvesTo E L (index (keychains E) (State.baseIndex s)) baseImg
    /\ Forall2 (fun req img => resolvesTo E L (CharmRequest.path req) img)
               (charmRequests E s dragged) charmImages.
Proof.
  intros Hs. unfold render, render_call, render_resume.
  pose proof (callAll_requests (renderPaths E s dragged) L) as [_ Hrs].
  destruct (callAll (renderPaths E s dragged) L) as [rs L1]. cbn [fst] in Hrs.
  pose proof (resumeAll_results E rs L1 Hs) as Hall.
  destruct (resumeAll E rs L1) as [ps L2]. cbn [fst] in Hall. rewrite Hall.
  unfold renderPaths in Hrs. inversion Hrs as [|src r0 paths rs' Hr0 Hrs' E1 E2].
  subst. cbn [map head tail mjoin option_join option_bind].
  exists (imageOf E r0), (map (imageOf E) rs'), L2.
  split; [reflexivity|]. split.
  - unfold resolvesTo.
    destruct (imageCache L !! index (keychains E) (State.baseIndex s));
      [by subst r0|]. destruct Hr0 as [k ->]. by exists k.
  - change (map CharmRequest.path (charmRequests E s dragged))
      with (CharmRequest.path <$> charmRequests E s dragged) in Hrs'.
    change (map (imageOf E) rs') with (imageOf E <$> rs').
    apply Forall2_fmap_l in Hrs'. apply Forall2_fmap_r.
    eapply Forall2_impl; [exact Hrs'|].
    intros req r Hr. cbn in Hr. unfold resolvesTo.
    destruct (imageCache L !! CharmRequest.path req); [by subst r|].
    destruct Hr as [k ->]. by exists k.
Qed.

Lemma draw_images (E : Env) (s : State.t) (isEditing : bool)
    (requests : list CharmRequest.t) (baseImg : option HTMLImageElement.t)
    (charmImages : list (option HTMLImageElement.t)) :
  drawnImages (draw E s isEditing requests baseImg charmImages)
  = match baseImg with Some img => [img] | None => [] end
    ++ omap id (take (length requests) charmImages).
Proof.
  unfold draw. rewrite !drawnImages_app.
  change (imap (drawCharm s isEditing charmImages) requests)
    with (imap (fun i => drawCharm s isEditing charmImages (0 + i)) requests).
  rewrite drawCharms_images. cbn [drop]. by destruct baseImg.
Qed.

(** C8: a failed image is not fatal, and failures are handled image by
    image.  A resolution never rejects: for an image that cannot be loaded
    it returns [null].  A render pass never throws: it stays suspended or
    ends with [ctx.restore()], and when the browser settles every image it
    does draw, with the result of each of its resolutions.  If the base
    image fails, the pass writes "Error: Gagal memuat gambar base." and,
    below it, the path it tried, and passes no base image to [drawImage].
    If a charm image fails, its layer makes no context call at all, so no
    placeholder is drawn, while the base and the other charms are drawn as
    usual: the images passed to [drawImage] are exactly the resolved ones,
    in order. *)
Theorem failed_images_are_skipped (E : Env) (s : State.t) (isEditing : bool)
    (dragged : option string) (L : Loader) :
  let requests := charmRequests E s dragged in
  let basePath := index (keychains E) (State.baseIndex s) in
  (forall src L0,
     fst (loadImage E src L0) <> rejects
     /\ (imageCache L0 !! src = None -> failsToLoad E src ->
         loadImage E src L0
         = (fulfilled None, mkLoader (imageCache L0) (decodes L0 ++ [src]))))
  /\ (forall isMounted,
        fst (render E s isEditing dragged isMounted L) = None
        \/ exists cmds,
             fst (render E s isEditing dragged isMounted L) = Some cmds
             /\ last cmds = Some Restore)
  /\ (settles E ->
      exists baseImg charmImages L',
        let cmds := draw E s isEditing requests baseImg charmImages in
        render E s isEditing dragged true L = (Some (cmds ++ [Restore]), L')
        /\ resolvesTo E L basePath baseImg
        /\ Forall2 (fun req img => resolvesTo E L (CharmRequest.path req) img)
                   requests charmImages
        /\ drawnImages cmds
           = match baseImg with Some img => [img] | None => [] end
             ++ omap id charmImages
        /\ (imageCache L !! basePath = None -> failsToLoad E basePath ->
            baseImg = None
            /\ In (FillText "Error: Gagal memuat gambar base."
                     (CANVAS_SIZE / 2) (CANVAS_SIZE / 2)) cmds
            /\ forall path, basePath = Some path -> path <> "" ->
                 In (FillText path (CANVAS_SIZE / 2) (CANVAS_SIZE / 2 + 30)) cmds)
        /\ (forall idx req,
              requests !! idx = Some req ->
              imageCache L !! CharmRequest.path req = None ->
              failsToLoad E (CharmRequest.path req) ->
              charmImages !! idx = Some None
              /\ drawCharm s isEditing charmImages idx req = [])).
Proof.
  intros requests basePath. split; [|split].
  - intros src L0. split.
    + unfold loadImage. destruct (loadImage_call src L0) as [r L1].
      apply (loadImage_resume_settles E r L1).
    + intros Hc Hf. rewrite (loadImage_miss E src L0 Hc). by rewrite Hf.
  - intros isMounted. apply (render_completes E s isEditing dragged isMounted L).
  - intros Hs. subst requests basePath.
    destruct (render_draws E s isEditing dragged L Hs)
      as (baseImg & charmImages & L' & Hr & Hb & Hcs).
    exists baseImg, charmImages, L'. cbn zeta.
    split; [exact Hr|]. split; [exact Hb|]. split; [exact Hcs|].
    split; [|split].
    + rewrite draw_images. f_equal. f_equal.
      apply take_ge. apply Forall2_length in Hcs. lia.
    + intros Hc Hf. unfold resolvesTo in Hb. rewrite Hc in Hb.
      destruct Hb as [k ->].
      assert (Hn : imageOf E (decoding k (index (keychains E) (State.baseIndex s)))
                   = None) by (cbn [imageOf]; by rewrite (Hf k)).
      rewrite Hn. split; [reflexivity|]. unfold draw.
      split.
      * apply in_or_app. right. apply in_or_app. left. cbn. auto 10.
      * intros path Hp Hne. rewrite Hp.
        apply in_or_app. right. apply in_or_app. left.
        destruct (String.eqb path "") eqn:He;
          [by apply String.eqb_eq in He|]. cbn. rewrite He. auto 10.
    + intros idx req Hreq Hc Hf.
      destruct (Forall2_lookup_l _ _ _ _ _ Hcs Hreq) as (img & Himg & Hres).
      unfold resolvesTo in Hres. rewrite Hc in Hres.
      destruct Hres as [k ->]. cbn in Himg. rewrite (Hf k) in Himg.
      split; [exact Himg|]. unfold drawCharm. by rewrite Himg.
Qed.

Lemma failed_images_are_skipped_witness :
  let s := state (run demoEnv [SlotSelect slotA 0; SlotSelect slotB 1] initial) in
  let E := mkEnv demoUuid ["/keychains/0.png"]
                 ["/animals/0.png"; "/animals/1.png"]
                 (fun _ src => if decide (src = Some "/animals/1.png")
                               then decoded 100 100 else rejected onerror) in
  exists cmds charmImages L',
    render E s true None true emptyLoader = (Some (cmds ++ [Restore]), L')
    /\ In (FillText "Error: Gagal memuat gambar base."
             (CANVAS_SIZE / 2) (CANVAS_SIZE / 2)) cmds
    /\ In (FillText "/keychains/0.png" (CANVAS_SIZE / 2) (CANVAS_SIZE / 2 + 30))
          cmds
    /\ drawnImages cmds = omap id charmImages
    /\ charmImages !! 0%nat = Some None.
Proof.
  intros s E.
  assert (Hs : settles E).
  { intros k src. cbn. by destruct (decide (src = Some "/animals/1.png")). }
  destruct (failed_images_are_skipped E s true None emptyLoader)
    as (_ & _ & H).
  destruct (H Hs)
    as (baseImg & charmImages & L' & Hr & _ & _ & Hd & Hbase & Hcharm).
  cbn zeta in *.
  exists (draw E s true (charmRequests E s None) baseImg charmImages),
    charmImages, L'.
  split; [exact Hr|].
  destruct (Hbase eq_refl (fun _ => eq_refl)) as (Hnone & Herr & Hpath).
  split; [exact Herr|].
  split; [apply (Hpath "/keychains/0.png" eq_refl); discriminate|].
  split; [by rewrite Hd, Hnone|].
  apply (Hcharm 0%nat
           (CharmRequest.mk (Some "/animals/0.png") (Position.x CHARM_POSITIONS.A)
              (Position.y CHARM_POSITIONS.A) (Position.scale CHARM_POSITIONS.A)
              false None)
           eq_refl eq_refl (fun _ => eq_refl)).
Defined.

(** ** The rectangle of a charm layer *)




(** ** The cache under overlapping resolutions *)

Lemma loadImage_call_ok (src : option string) (S : InFlight) :
  InFlightOK S ->
  InFlightOK (mkInFlight (snd (loadImage_call src (loader S)))
                         (suspended S ++ [fst (loadImage_call src (loader S))])).
Proof.
  intros [Hok Hsusp]. unfold loadImage_call.
  destruct (imageCache (loader S) !! src) as [img|] eqn:Hc; cbn [fst snd].
  - split; [exact Hok|]. apply Forall_app. split; [exact Hsusp|].
    by constructor.
  - split; cbn [loader suspended].
    + intros src0 img Hsrc0. cbn [imageCache decodes] in *.
      destruct (Hok src0 img Hsrc0) as [Hs Hd]. split; [exact Hs|].
      by apply lookup_app_l_Some.
    + apply Forall_app. split.
      * eapply Forall_impl; [exact Hsusp|]. intros [img|k s]; [done|].
        cbn [decodes]. intros Hk. by apply lookup_app_l_Some.
      * constructor; [|constructor]. cbn [decodes].
        apply list_lookup_middle. reflexivity.
Qed.

Lemma loadImage_resume_ok (E : Env) (r : Request) (L : Loader) :
  LoaderOK L ->
  match r with
  | cached _ => True
  | decoding k src => decodes L !! k = Some src
  end ->
  let L' := snd (loadImage_resume E r L) in
  LoaderOK L'
  /\ decodes L' = decodes L
  /\ forall src, is_Some (imageCache L !! src) -> is_Some (imageCache L' !! src).
Proof.
  intros Hok Hr. destruct r as [img|k src]; [cbn; by split; [|split]|].
  cbn.
  assert (Hset : forall w h,
             let L' := cacheSet src (HTMLImageElement.mk k src w h) L in
             LoaderOK L'
             /\ decodes L' = decodes L
             /\ forall src0, is_Some (imageCache L !! src0) ->
                             is_Some (imageCache L' !! src0)).
  { intros w h. unfold LoaderOK, cacheSet. cbn [imageCache decodes].
    split; [|split; [reflexivity|]].
    - intros src0 img. destruct (decide (src = src0)) as [<-|Hne].
      + rewrite lookup_insert_eq. by intros [= <-].
      + rewrite lookup_insert_ne by assumption. apply Hok.
    - intros src0 Hsome. destruct (decide (src = src0)) as [<-|Hne].
      + rewrite lookup_insert_eq. by eexists.
      + by rewrite lookup_insert_ne. }
  destruct (network E k src) as [w h|[w h| |]]; cbn;
    first [apply Hset|by split; [|split]].
Qed.

Lemma InFlightOK_step (E : Env) (st : LoadStep) (S : InFlight) :
  InFlightOK S -> InFlightOK (loadStep E st S).
Proof.
  intros H. destruct st as [src|i]; cbn [loadStep].
  - pose proof (loadImage_call_ok src S H) as Hc.
    by destruct (loadImage_call src (loader S)) as [r L].
  - destruct (suspended S !! i) as [r|] eqn:Hi; [|exact H].
    destruct H as [Hok Hsusp].
    assert (Hr : match r with
                 | cached _ => True
                 | decoding k src => decodes (loader S) !! k = Some src
                 end).
    { rewrite Forall_lookup in Hsusp. apply (Hsusp i r Hi). }
    destruct (loadImage_resume_ok E r (loader S) Hok Hr) as (Hok' & Hd & _).
    split; cbn [loader suspended]; [exact Hok'|].
    rewrite Hd. by apply Forall_delete.
Qed.

Lemma InFlightOK_steps (E : Env) (sts : list LoadStep) (S : InFlight) :
  InFlightOK S -> InFlightOK (loadSteps E sts S).
Proof.
  revert S. induction sts as [|st sts IH]; intros S H; [exact H|].
  cbn. apply IH. by apply InFlightOK_step.
Qed.

(** X14: the image cache stays consistent and loses no path however the
    [loadImage] calls of the render passes overlap.  Start from an empty
    cache and let calls run up to their [await] and suspended calls resume
    in any order: then every cached image sits under its own src and comes
    from a recorded decode of that src; a step never removes a path from
    the cache, though a resuming call puts its own image under its path, in
    place of one cached there meanwhile, as two overlapped calls for one
    path show; the decode log only grows; and a call for a cached path
    starts no decode, leaves the loader as it is and is suspended with the
    cached image. *)
Theorem overlapping_loads_keep_cache (E : Env) (sts : list LoadStep)
    (st : LoadStep) :
  let S := loadSteps E sts (mkInFlight emptyLoader []) in
  let S' := loadStep E st S in
  LoaderOK (loader S) /\ LoaderOK (loader S')
  /\ (forall src, is_Some (imageCache (loader S) !! src) ->
                  is_Some (imageCache (loader S') !! src))
  /\ (exists new, decodes (loader S') = decodes (loader S) ++ new)
  /\ (forall src img,
        st = callStep src -> imageCache (loader S) !! src = Some img ->
        S' = mkInFlight (loader S) (suspended S ++ [cached img]))
  /\ let p := Some "/animals/0.png" in
     let calls := [callStep p; callStep p; resumeStep 0] in
     imageCache
       (loader (loadSteps demoEnv calls (mkInFlight emptyLoader []))) !! p
     = Some (HTMLImageElement.mk 0 p 100 100)
     /\ imageCache
          (loader (loadSteps demoEnv (calls ++ [resumeStep 0])
                             (mkInFlight emptyLoader []))) !! p
        = Some (HTMLImageElement.mk 1 p 100 100).
Proof.
  intros S S'.
  assert (H0 : InFlightOK (mkInFlight emptyLoader []))
    by (split; [apply LoaderOK_empty|constructor]).
  pose proof (InFlightOK_steps E sts _ H0) as HS. fold S in HS.
  pose proof (InFlightOK_step E st S HS) as HS'. fold S' in HS'.
  split; [apply HS|]. split; [apply HS'|].
  split; [|split; [|split; [|by split]]].
  - intros src Hsrc. subst S'. destruct st as [src0|i]; cbn [loadStep].
    + unfold loadImage_call.
      by destruct (imageCache (loader S) !! src0).
    + destruct (suspended S !! i) as [r|] eqn:Hi; [|exact Hsrc].
      destruct HS as [Hok Hsusp]. rewrite Forall_lookup in Hsusp.
      destruct (loadImage_resume_ok E r (loader S) Hok (Hsusp i r Hi))
        as (_ & _ & Hkeep).
      by apply Hkeep.
  - subst S'. destruct st as [src0|i]; cbn [loadStep].
    + unfold loadImage_call.
      destruct (imageCache (loader S) !! src0); cbn [loader decodes].
      * exists []. by rewrite app_nil_r.
      * by exists [src0].
    + destruct (suspended S !! i) as [r|] eqn:Hi;
        [|exists []; by rewrite app_nil_r].
      destruct HS as [Hok Hsusp]. rewrite Forall_lookup in Hsusp.
      destruct (loadImage_resume_ok E r (loader S) Hok (Hsusp i r Hi))
        as (_ & Hd & _).
      exists []. cbn [loader]. by rewrite app_nil_r.
  - intros src img -> Hc. subst S'. cbn [loadStep]. unfold loadImage_call.
    by rewrite Hc.
Qed.

Lemma overlapping_loads_keep_cache_witness :
  let p := Some "/animals/0.png" in
  let S := loadSteps demoEnv [callStep p; resumeStep 0]
                     (mkInFlight emptyLoader []) in
  loadStep demoEnv (callStep p) S
  = mkInFlight (loader S) [cached (HTMLImageElement.mk 0 p 100 100)].
Proof.
  intros p S.
  destruct (overlapping_loads_keep_cache demoEnv [callStep p; resumeStep 0]
              (callStep p)) as (_ & _ & _ & _ & H & _).
  apply (H p (HTMLImageElement.mk 0 p 100 100) eq_refl). reflexivity.
Defined.
